(** * Playbook verifier: exclusion extraction, filtering and canonical
    serialization

    A shallow embedding of [GetPlaybookExclusions], [CleanPlaybook] and
    [MarshallPlaybook] (with its helpers [marshallPlaybookItem],
    [marshallPlaybookMap] and [marshallPlaybookList]) and the properties of
    the specification that concern them.

    Go values of interface type are a sum type [any] holding the dynamic
    types the YAML decoder produces; Go strings and byte slices are [string]
    (sequences of 8-bit characters); a function that returns [(T, error)]
    returns an [outcome T], which also records a run-time panic (a failed
    type assertion or an index out of range).  Logging through [slog] has no
    influence on the values computed and is left out. *)

From Stdlib Require Import ZArith Ascii String Floats.PrimFloat.
From stdpp Require Import base list strings.

Local Open Scope string_scope.
Local Open Scope list_scope.

(** ** Values *)

(** The dynamic types held by a [yaml.MapItem]'s [Key] and [Value] fields
    (both [interface{}]) after decoding into a [yaml.MapSlice]: a nested
    [yaml.MapSlice], a [[]interface{}], [bool], [string], the integer types,
    [float64], and the nil interface for a YAML null. *)
Unset Elimination Schemes.
Inductive any : Type :=
| VNil
| VBool (b : bool)
| VString (s : string)
| VInt (n : Z)
| VFloat (f : float)
| VSlice (l : list any)
| VMapSlice (m : list MapItem)
with MapItem : Type :=
| mkMapItem (Key : any) (Value : any).
Set Elimination Schemes.

Definition Key (item : MapItem) : any :=
  match item with mkMapItem k _ => k end.

Definition Value (item : MapItem) : any :=
  match item with mkMapItem _ v => v end.

(** [yaml.MapSlice] is [[]yaml.MapItem]. *)
Abbreviation MapSlice := (list MapItem).

(** ** Errors and outcomes *)

Inductive error : Type :=
| PlaybookError (message : string)
| VerificationError (message : string).

(** [DynamicLabels]: the keys of the package-level map. *)
Definition DynamicLabels : list string := ["hosts"; "vars"].

Inductive outcome (A : Type) : Type :=
| Ok (a : A)
| Err (e : error)
| Panic.

Arguments Ok {A} a.
Arguments Err {A} e.
Arguments Panic {A}.

Definition bind {A B : Type} (c : outcome A) (k : A -> outcome B) : outcome B :=
  match c with
  | Ok a => k a
  | Err e => Err e
  | Panic => Panic
  end.

Notation "'do' x <- c ; k" := (bind c (fun x => k))
  (at level 10, x name, c at level 100, k at level 200).

(** Type assertions [v.(string)] and [v.(yaml.MapSlice)] in their one-result
    form: they panic when the dynamic type differs. *)
Definition assert_string (v : any) : outcome string :=
  match v with
  | VString s => Ok s
  | _ => Panic
  end.

Definition assert_MapSlice (v : any) : outcome MapSlice :=
  match v with
  | VMapSlice m => Ok m
  | _ => Panic
  end.

(** ** The functions of package [strings] that the code calls *)

(** [strings.Split(s, sep)] for a separator of one byte: the substrings
    between the occurrences of [sep]; never the empty slice. *)
Fixpoint Split (s : string) (sep : Ascii.ascii) : list string :=
  match s with
  | EmptyString => [EmptyString]
  | String c rest =>
      if Ascii.eqb c sep then EmptyString :: Split rest sep
      else match Split rest sep with
           | [] => [String c EmptyString]
           | first :: others => String c first :: others
           end
  end.

(** [strings.HasPrefix] followed by the slicing of [strings.TrimPrefix]. *)
Fixpoint cut_prefix (s prefix : string) : option string :=
  match prefix with
  | EmptyString => Some s
  | String p prefix' =>
      match s with
      | EmptyString => None
      | String c s' => if Ascii.eqb c p then cut_prefix s' prefix' else None
      end
  end.

Definition TrimPrefix (s prefix : string) : string :=
  match cut_prefix s prefix with
  | Some rest => rest
  | None => s
  end.

(** ** GetPlaybookExclusions *)

(** The inner loop over the entries of [vars]; it stops at the first entry
    named [insights_signature_exclude]. *)
Fixpoint scan_vars (vars : MapSlice) (rawExclusions : string) : outcome string :=
  match vars with
  | [] => Ok rawExclusions
  | pair' :: rest =>
      do key <- assert_string (Key pair');
      if negb (String.eqb key "insights_signature_exclude")
      then scan_vars rest rawExclusions
      else assert_string (Value pair')
  end.

(** The outer loop over the top-level entries; it has no [break], so every
    entry named [vars] is visited. *)
Fixpoint scan_playbook (p : MapSlice) (rawExclusions : string) : outcome string :=
  match p with
  | [] => Ok rawExclusions
  | item :: rest =>
      do key <- assert_string (Key item);
      if negb (String.eqb key "vars")
      then scan_playbook rest rawExclusions
      else
        do vars <- assert_MapSlice (Value item);
        do rawExclusions' <- scan_vars vars rawExclusions;
        scan_playbook rest rawExclusions'
  end.

Definition missing_exclusions : error :=
  PlaybookError "playbook doesn't contain key 'insights_signature_exclude'".

(** One comma-separated entry turned into a path. *)
Definition exclusion_path (exclusion : string) : list string :=
  Split (TrimPrefix exclusion "/") "/".

Definition parse_exclusions (rawExclusions : string) : list (list string) :=
  map exclusion_path (Split rawExclusions ",").

Definition GetPlaybookExclusions (p : MapSlice) : outcome (list (list string)) :=
  do rawExclusions <- scan_playbook p "";
  if String.eqb rawExclusions ""
  then Err missing_exclusions
  else Ok (parse_exclusions rawExclusions).

(** ** CleanPlaybook *)

(** [exclusion[i]] on a slice of strings: out of range is a panic. *)
Definition index (exclusion : list string) (i : nat) : outcome string :=
  match nth_error exclusion i with
  | Some s => Ok s
  | None => Panic
  end.

(** The loop over [exclusions] for a nested entry.  The conjunction is
    evaluated left to right and stops at the first false operand. *)
Fixpoint skip_nested (exclusions : list (list string))
    (directValueName nestedValueName : string) (skipNestedValue : bool)
    : outcome bool :=
  match exclusions with
  | [] => Ok skipNestedValue
  | exclusion :: rest =>
      do e0 <- index exclusion 0;
      do hit <-
        (if String.eqb directValueName e0 then
           if Nat.eqb (length exclusion) 2 then
             do e1 <- index exclusion 1;
             Ok (String.eqb nestedValueName e1)
           else Ok false
         else Ok false);
      skip_nested rest directValueName nestedValueName
        (if hit then true else skipNestedValue)
  end.

(** The loop over [exclusions] for a top-level entry that is not a mapping. *)
Fixpoint skip_direct (exclusions : list (list string))
    (directValueName : string) (skipDirectValue : bool) : outcome bool :=
  match exclusions with
  | [] => Ok skipDirectValue
  | exclusion :: rest =>
      do e0 <- index exclusion 0;
      let hit := String.eqb directValueName e0 && Nat.eqb (length exclusion) 1 in
      skip_direct rest directValueName (if hit then true else skipDirectValue)
  end.

(** The loop over the entries of a nested mapping, appending the entries
    that are kept to [newDirectValue]. *)
Fixpoint clean_nested (exclusions : list (list string)) (directValueName : string)
    (nested : MapSlice) (newDirectValue : MapSlice) : outcome MapSlice :=
  match nested with
  | [] => Ok newDirectValue
  | nestedValue :: rest =>
      do nestedValueName <- assert_string (Key nestedValue);
      do skipNestedValue <- skip_nested exclusions directValueName nestedValueName false;
      if skipNestedValue
      then clean_nested exclusions directValueName rest newDirectValue
      else clean_nested exclusions directValueName rest
             (newDirectValue ++ [mkMapItem (Key nestedValue) (Value nestedValue)])
  end.

(** The loop over the top-level entries, appending to [clean]. *)
Fixpoint clean_entries (exclusions : list (list string)) (p : MapSlice)
    (clean : MapSlice) : outcome MapSlice :=
  match p with
  | [] => Ok clean
  | directValue :: rest =>
      do directValueName <- assert_string (Key directValue);
      match Value directValue with
      | VMapSlice nested =>
          do newDirectValue <- clean_nested exclusions directValueName nested [];
          clean_entries exclusions rest
            (clean ++ [mkMapItem (Key directValue) (VMapSlice newDirectValue)])
      | _ =>
          do skipDirectValue <- skip_direct exclusions directValueName false;
          if skipDirectValue
          then clean_entries exclusions rest clean
          else clean_entries exclusions rest (clean ++ [directValue])
      end
  end.

(** The filter for a given list of exclusions: the part of [CleanPlaybook]
    that follows the extraction. *)
Definition filter_playbook (exclusions : list (list string)) (p : MapSlice)
    : outcome MapSlice :=
  clean_entries exclusions p [].

Definition CleanPlaybook (p : MapSlice) : outcome MapSlice :=
  do exclusions <- GetPlaybookExclusions p;
  filter_playbook exclusions p.

(** ** Serialization *)

Section Loops.
Variable marshalItem : any -> outcome string.

(** The loop of [marshallPlaybookMap]: [i] is the index of the next pair. *)
Fixpoint map_loop (m : MapSlice) (i : nat) (result : string) : outcome string :=
  match m with
  | [] => Ok (result +:+ "])")
  | pair' :: rest =>
      do key <- assert_string (Key pair');
      do value <- marshalItem (Value pair');
      let result := if Nat.ltb 0 i then result +:+ ", " else result in
      map_loop rest (S i) (result +:+ "('" +:+ key +:+ "', " +:+ value +:+ ")")
  end.

(** The loop of [marshallPlaybookList]. *)
Fixpoint list_loop (l : list any) (i : nat) (result : string) : outcome string :=
  match l with
  | [] => Ok (result +:+ "]")
  | item :: rest =>
      do value <- marshalItem item;
      let result := if Nat.ltb 0 i then result +:+ ", " else result in
      list_loop rest (S i) (result +:+ value)
  end.
End Loops.

(** The [default] case asserts [item.(string)]; the [string] case comes
    before it, so the assertion is only reached by a value that is not a
    string. *)
Fixpoint marshallPlaybookItem (item : any) : outcome string :=
  match item with
  | VMapSlice m => map_loop marshallPlaybookItem m 0 "ordereddict(["
  | VSlice l => list_loop marshallPlaybookItem l 0 "["
  | VBool b => Ok (if b then "True" else "False")
  | VString s => Ok ("'" +:+ s +:+ "'")
  | VNil | VInt _ | VFloat _ => assert_string item
  end.

Definition marshallPlaybookMap (m : MapSlice) : outcome string :=
  map_loop marshallPlaybookItem m 0 "ordereddict([".

Definition marshallPlaybookList (l : list any) : outcome string :=
  list_loop marshallPlaybookItem l 0 "[".

Definition MarshallPlaybook (p : MapSlice) : outcome string :=
  marshallPlaybookMap p.

(** ** The data model of the specification *)

(** The name of an entry whose key is a string. *)
Definition key_name (item : MapItem) : option string :=
  match Key item with
  | VString s => Some s
  | _ => None
  end.

Definition is_mapping (v : any) : bool :=
  match v with
  | VMapSlice _ => true
  | _ => false
  end.

(** Every key of the mapping is a string. *)
Definition string_keys (m : MapSlice) : bool :=
  forallb (fun item => bool_decide (is_Some (key_name item))) m.

Definition nested_string_keys (item : MapItem) : bool :=
  match Value item with
  | VMapSlice m => string_keys m
  | _ => true
  end.

(** String keys at the two levels that extraction and filtering read. *)
Definition string_keyed (D : MapSlice) : bool :=
  string_keys D && forallb nested_string_keys D.

(** The names of the entries, in order. *)
Definition names (m : MapSlice) : list string := omap key_name m.

(** String keys, no two of them equal. *)
Definition unique_keys (m : MapSlice) : bool :=
  string_keys m && bool_decide (NoDup (names m)).

(** The value of the first entry named [k]. *)
Fixpoint lookup_key (k : string) (m : MapSlice) : option any :=
  match m with
  | [] => None
  | item :: rest =>
      match key_name item with
      | Some k' => if String.eqb k' k then Some (Value item) else lookup_key k rest
      | None => lookup_key k rest
      end
  end.

(** An exclusion path has at least one segment. *)
Definition proper_paths (E : list (list string)) : bool :=
  forallb (fun e => negb (Nat.eqb (length e) 0)) E.

(** ** The filter in the words of the specification (section 4.3) *)

(** Some path equals [[key]] exactly. *)
Definition depth1_match (E : list (list string)) (item : MapItem) : Prop :=
  match key_name item with
  | Some k => [k] ∈ E
  | None => False
  end.

(** Some path equals [[key; nestedKey]] exactly. *)
Definition depth2_match (E : list (list string)) (k : string) (nested : MapItem) : Prop :=
  match key_name nested with
  | Some nk => [k; nk] ∈ E
  | None => False
  end.

(** A top-level entry is dropped when its value is not a nested mapping and
    some path equals [[key]]. *)
Definition dropped (E : list (list string)) (item : MapItem) : Prop :=
  is_mapping (Value item) = false ∧ depth1_match E item.

#[global] Instance depth1_match_dec E item : Decision (depth1_match E item).
Proof. unfold depth1_match. destruct (key_name item); apply _. Defined.

#[global] Instance depth2_match_dec E k nested : Decision (depth2_match E k nested).
Proof. unfold depth2_match. destruct (key_name nested); apply _. Defined.

#[global] Instance dropped_dec E item : Decision (dropped E item).
Proof. unfold dropped. apply _. Defined.

Definition filter_nested_spec (E : list (list string)) (k : string) (m : MapSlice)
    : MapSlice :=
  filter (fun nested => ¬ depth2_match E k nested) m.

(** A kept entry: a nested mapping is replaced by its filtered copy, any
    other value is unchanged. *)
Definition rebuild (E : list (list string)) (item : MapItem) : MapItem :=
  match Value item, key_name item with
  | VMapSlice m, Some k => mkMapItem (Key item) (VMapSlice (filter_nested_spec E k m))
  | _, _ => item
  end.

Definition filter_spec (E : list (list string)) (D : MapSlice) : MapSlice :=
  rebuild E <$> filter (fun item => ¬ dropped E item) D.

(** ** The documents of the scenarios *)

Definition entry (k : string) (v : any) : MapItem := mkMapItem (VString k) v.

Definition demo : MapSlice :=
  [ entry "name" (VString "Demo");
    entry "hosts" (VSlice [VString "h1"; VString "h2"]);
    entry "vars" (VMapSlice
      [ entry "insights_signature_exclude"
          (VString "/hosts,/vars/insights_signature_exclude");
        entry "other" (VInt 1) ]) ].

Definition demo_exclusions : list (list string) :=
  [["hosts"]; ["vars"; "insights_signature_exclude"]].

Definition demo_clean : MapSlice :=
  [ entry "name" (VString "Demo");
    entry "vars" (VMapSlice [ entry "other" (VInt 1) ]) ].

Definition exclude_key : string := "insights_signature_exclude".

Definition declaring (raw : any) : MapSlice :=
  [ entry "vars" (VMapSlice [ entry exclude_key raw ]) ].

(** A document that names a key outside [DynamicLabels] in its exclusions. *)
Definition with_secrets : MapSlice :=
  [ entry "secrets" (VString "s3cr3t");
    entry "vars" (VMapSlice [ entry exclude_key (VString "/secrets") ]) ].

(** A document that excludes its own [vars] mapping with a one-segment path. *)
Definition excluding_vars : MapSlice :=
  [ entry "name" (VString "Demo");
    entry "vars" (VMapSlice
      [ entry exclude_key (VString "/vars"); entry "other" (VString "x") ]) ].

(** ** Auxiliary notions for the statements *)

(** [strings.Join], the inverse of [Split]. *)
Fixpoint join (sep : string) (l : list string) : string :=
  match l with
  | [] => ""
  | [x] => x
  | x :: rest => x +:+ sep +:+ join sep rest
  end.

(** The declaration is missing: no top-level [vars], or a [vars] mapping
    without an [insights_signature_exclude] entry. *)
Definition undeclared (p : MapSlice) : Prop :=
  lookup_key "vars" p = None
  ∨ ∃ vars, lookup_key "vars" p = Some (VMapSlice vars)
            ∧ string_keys vars = true
            ∧ lookup_key exclude_key vars = None.

(** A position inside a value: the value itself, an element of a list, or
    the value of an entry of a mapping, at any depth. *)
Inductive position : Type :=
| Here
| InList (before : list any) (inner : position) (after : list any)
| InMap (before : MapSlice) (key : any) (inner : position) (after : MapSlice).

Fixpoint plug (pos : position) (v : any) : any :=
  match pos with
  | Here => v
  | InList before inner after => VSlice (before ++ plug inner v :: after)
  | InMap before key inner after =>
      VMapSlice (before ++ mkMapItem key (plug inner v) :: after)
  end.

Definition bool_literal (b : bool) : string := if b then "True" else "False".

(** The values the serializer encodes: mappings with string keys, lists,
    booleans and strings, nested to any depth. *)
Fixpoint encodable (v : any) : bool :=
  match v with
  | VMapSlice m =>
      forallb (fun item =>
        bool_decide (is_Some (key_name item)) && encodable (Value item)) m
  | VSlice l => forallb encodable l
  | VBool _ | VString _ => true
  | VNil | VInt _ | VFloat _ => false
  end.

(** The outcome of a loop that started from the accumulator [r], given the
    outcome of the same loop started from the empty string. *)
Definition prefixed (r : string) (c : outcome string) : outcome string :=
  match c with
  | Ok s => Ok (r +:+ s)
  | Err e => Err e
  | Panic => Panic
  end.

(** A boolean at position [pos] is rendered as its literal between a prefix
    and a suffix that do not depend on it, unless the serialization of the
    surrounding value panics. *)
Definition renders_literal (pos : position) : Prop :=
  (∃ pre post, ∀ b,
      marshallPlaybookItem (plug pos (VBool b))
      = Ok (pre +:+ bool_literal b +:+ post))
  ∨ (∀ b, marshallPlaybookItem (plug pos (VBool b)) = Panic).

(** Induction on values, through lists and mappings. *)
Section any_induction.
Variable P : any -> Prop.
Hypothesis HNil : P VNil.
Hypothesis HBool : forall b, P (VBool b).
Hypothesis HString : forall s, P (VString s).
Hypothesis HInt : forall n, P (VInt n).
Hypothesis HFloat : forall f, P (VFloat f).
Hypothesis HSlice : forall l, Forall P l -> P (VSlice l).
Hypothesis HMapSlice :
  forall m, Forall (fun item => P (Key item) /\ P (Value item)) m ->
            P (VMapSlice m).

Fixpoint any_induction (v : any) : P v :=
  match v with
  | VNil => HNil
  | VBool b => HBool b
  | VString s => HString s
  | VInt n => HInt n
  | VFloat f => HFloat f
  | VSlice l =>
      HSlice l
        ((fix elements (l : list any) : Forall P l :=
            match l with
            | [] => List.Forall_nil P
            | x :: l' => List.Forall_cons P x l' (any_induction x) (elements l')
            end) l)
  | VMapSlice m =>
      HMapSlice m
        ((fix entries (m : MapSlice)
            : Forall (fun item => P (Key item) /\ P (Value item)) m :=
            match m with
            | [] => List.Forall_nil _
            | mkMapItem k x :: m' =>
                List.Forall_cons _ (mkMapItem k x) m'
                  (conj (any_induction k) (any_induction x)) (entries m')
            end) m)
  end.
End any_induction.

(** ** The rest of the program: errors, input and [main] *)

(** The [Error] methods of the two error types:
    [fmt.Sprintf("playbook error: %s", e.message)] and its sibling. *)
Definition Error (e : error) : string :=
  match e with
  | PlaybookError message => "playbook error: " +:+ message
  | VerificationError message => "verification error: " +:+ message
  end.

(** An [error] value of the program: one of its own, or one that comes from
    package [yaml], [io] or [os]. *)
Inductive failure : Type :=
| Own (e : error)
| Foreign (message : string).

Inductive result (A : Type) : Type :=
| Success (a : A)
| Failure (e : failure).

Arguments Success {A} a.
Arguments Failure {A} e.

Section Decoder.
(** [yaml.Unmarshal(playbook, &data)] with [data] a [[]yaml.MapSlice]: the
    decoded mappings, or the error of the decoder. *)
Variable yaml_Unmarshal : string -> result (list MapSlice).

Definition UnmarshalPlaybook (playbook : string) : result MapSlice :=
  match yaml_Unmarshal playbook with
  | Failure e => Failure e
  | Success data =>
      if Nat.eqb (length data) 0
      then Failure (Own (PlaybookError "playbook contains no data"))
      else if Nat.ltb 1 (length data)
      then Failure (Own (PlaybookError "input cannot contain more than one playbook"))
      else match data with
           | first :: _ => Success first
           | [] => Failure (Own (PlaybookError "playbook contains no data"))
           end
  end.
End Decoder.

Record PlaybookSource : Type := mkPlaybookSource { stdin : bool; path : string }.

(** What the program reads: the environment variable [PLAYBOOK_SOURCE]
    (absent when it is not set), the outcome of [io.ReadAll(os.Stdin)], of
    [os.ReadFile] for every path, and the YAML decoder. *)
Record world : Type := mkWorld {
  PLAYBOOK_SOURCE : option string;
  ReadAll_Stdin : result string;
  ReadFile : string -> result string;
  Unmarshal : string -> result (list MapSlice)
}.

(** [os.Getenv]: the empty string for a variable that is not set. *)
Definition Getenv (variable : option string) : string :=
  match variable with
  | Some value => value
  | None => ""
  end.

Definition NewPlaybookSource (w : world) : PlaybookSource :=
  let path := Getenv (PLAYBOOK_SOURCE w) in
  mkPlaybookSource (String.eqb path "") path.

(** The [String] method of [PlaybookSource]. *)
Definition PlaybookSource_String (s : PlaybookSource) : string :=
  if stdin s then "stdin" else path s.

Definition readPlaybook (w : world) (source : PlaybookSource) : result string :=
  if stdin source then ReadAll_Stdin w else ReadFile w (path source).

(** [MarshallPlaybook] on the pointer it receives: [*p] on a nil pointer is
    a panic. *)
Definition MarshallPlaybook_ptr (p : option MapSlice) : outcome string :=
  match p with
  | Some m => MarshallPlaybook m
  | None => Panic
  end.

(** How a run of [main] ends, and what it has written to standard output. *)
Inductive ending : Type :=
| Returned
| Panicked.

Record run : Type := mkRun { stdout : string; ended : ending }.

(** [fmt.Println(s)] writes [s] and a newline. *)
Definition Println (s : string) : string := s +:+ String "010" "".

(** [main]: after a failed read or a failed decoding it returns; after a
    failed [CleanPlaybook] it logs the error and goes on with the nil
    pointer; after a failed [MarshallPlaybook] it logs the error and prints
    the nil slice. *)
Definition main (w : world) : run :=
  let source := NewPlaybookSource w in
  match readPlaybook w source with
  | Failure _ => mkRun "" Returned
  | Success rawPlaybook =>
      match UnmarshalPlaybook (Unmarshal w) rawPlaybook with
      | Failure _ => mkRun "" Returned
      | Success dirty =>
          match CleanPlaybook dirty with
          | Panic => mkRun "" Panicked
          | cleaned =>
              let clean := match cleaned with Ok c => Some c | _ => None end in
              match MarshallPlaybook_ptr clean with
              | Panic => mkRun "" Panicked
              | Ok serialized => mkRun (Println serialized) Returned
              | Err _ => mkRun (Println "") Returned
              end
          end
      end
  end.

(** The text of one pair of a mapping. *)
Definition pair_text (key value : string) : string :=
  "('" +:+ key +:+ "', " +:+ value +:+ ")".

(** ** Bytes of a string *)

Fixpoint count_byte (c : Ascii.ascii) (s : string) : nat :=
  match s with
  | EmptyString => 0
  | String c' rest => (if Ascii.eqb c' c then 1 else 0) + count_byte c rest
  end.

Definition has_byte (c : Ascii.ascii) (s : string) : bool :=
  negb (Nat.eqb (count_byte c s) 0).

(** ** Outcomes and assertions *)

Lemma bind_Ok {A B} (c : outcome A) (k : A -> outcome B) b :
  bind c k = Ok b -> exists a, c = Ok a /\ k a = Ok b.
Proof. destruct c; simpl; intros H; try discriminate. eauto. Qed.

Lemma assert_string_key item :
  bool_decide (is_Some (key_name item)) = true ->
  exists k, Key item = VString k /\ key_name item = Some k
            /\ assert_string (Key item) = Ok k.
Proof.
  intros H. apply bool_decide_eq_true in H. destruct H as [k Hk].
  unfold key_name in *. destruct (Key item); try discriminate.
  exists s. by simplify_eq.
Qed.

(** ** The exclusion loops decide membership of the exact path *)

Lemma flag_step {A} `{EqDecision A} (x e : A) (E : list A) (b c : bool) :
  (c = true <-> x = e) ->
  (if c then true else b) || bool_decide (x ∈ E) = b || bool_decide (x ∈ e :: E).
Proof.
  intros Hc. destruct c.
  - rewrite (bool_decide_eq_true_2 (x ∈ e :: E)).
    + by rewrite orb_true_r.
    + apply elem_of_cons. left. by apply Hc.
  - f_equal. apply bool_decide_ext. rewrite elem_of_cons.
    split; [tauto|]. intros [Heq|?]; [|done]. apply Hc in Heq. discriminate.
Qed.

Lemma skip_direct_spec E k b :
  proper_paths E = true ->
  skip_direct E k b = Ok (b || bool_decide ([k] ∈ E)).
Proof.
  revert b. induction E as [|e E IH]; intros b HE; simpl in *.
  - by rewrite orb_false_r.
  - apply andb_prop in HE as [He HE].
    destruct e as [|e0 tl]; [discriminate|]. simpl.
    rewrite IH by done. f_equal.
    destruct (String.eqb_spec k e0) as [->|Hne], tl; simpl;
      first [apply (flag_step _ _ _ b true) | apply (flag_step _ _ _ b false)];
      split; congruence.
Qed.

Lemma skip_nested_spec E k nk b :
  proper_paths E = true ->
  skip_nested E k nk b = Ok (b || bool_decide ([k; nk] ∈ E)).
Proof.
  revert b. induction E as [|e E IH]; intros b HE; simpl in *.
  - by rewrite orb_false_r.
  - apply andb_prop in HE as [He HE].
    destruct e as [|e0 tl]; [discriminate|]. simpl.
    destruct (String.eqb_spec k e0) as [->|Hne].
    + destruct tl as [|e1 [|e2 tl]]; simpl; rewrite IH by done; f_equal;
        first [apply (flag_step _ _ _ b false); split; congruence | idtac].
      apply flag_step. destruct (String.eqb_spec nk e1); split; congruence.
    + simpl. rewrite IH by done. f_equal.
      apply (flag_step _ _ _ b false). split; congruence.
Qed.

(** ** The filter loops compute the filter of the specification *)

Lemma depth1_match_name E item k :
  key_name item = Some k -> depth1_match E item <-> [k] ∈ E.
Proof. intros H. unfold depth1_match. by rewrite H. Qed.

Lemma depth2_match_name E k nested nk :
  key_name nested = Some nk -> depth2_match E k nested <-> [k; nk] ∈ E.
Proof. intros H. unfold depth2_match. by rewrite H. Qed.

Lemma rebuild_other E item :
  is_mapping (Value item) = false -> rebuild E item = item.
Proof. unfold rebuild. by destruct (Value item). Qed.

Lemma filter_spec_cons E item D :
  filter_spec E (item :: D)
  = if decide (dropped E item) then filter_spec E D
    else rebuild E item :: filter_spec E D.
Proof.
  unfold filter_spec. rewrite filter_cons.
  destruct (decide (dropped E item)).
  - by rewrite decide_False by tauto.
  - by rewrite decide_True by done.
Qed.

Section Refinement.
Variable E : list (list string).
Hypothesis proper : proper_paths E = true.

Lemma clean_nested_spec k m acc :
  string_keys m = true ->
  clean_nested E k m acc = Ok (acc ++ filter_nested_spec E k m).
Proof.
  revert acc. induction m as [|n m IH]; intros acc Hm; simpl in *.
  - by rewrite app_nil_r.
  - apply andb_prop in Hm as [Hn Hm].
    destruct (assert_string_key n Hn) as (nk & HK & Hname & ->). simpl.
    rewrite skip_nested_spec by done. simpl.
    unfold filter_nested_spec. rewrite filter_cons.
    pose proof (depth2_match_name E k n nk Hname) as Hiff.
    destruct (decide ([k; nk] ∈ E)) as [Hin|Hin].
    + rewrite bool_decide_eq_true_2 by done.
      rewrite decide_False by tauto. by apply IH.
    + rewrite bool_decide_eq_false_2 by done.
      rewrite decide_True by tauto.
      rewrite IH by done. destruct n. by rewrite <- app_assoc.
Qed.

(** A top-level entry whose value is not a mapping. *)
Lemma clean_entries_direct item k D acc :
  Key item = VString k ->
  is_mapping (Value item) = false ->
  clean_entries E (item :: D) acc
  = if decide (dropped E item) then clean_entries E D acc
    else clean_entries E D (acc ++ [item]).
Proof.
  intros HK Hno. simpl. rewrite HK. simpl.
  assert (Hname : key_name item = Some k) by (unfold key_name; by rewrite HK).
  pose proof (depth1_match_name E item k Hname) as Hiff.
  assert (Hskip : (do skip <- skip_direct E k false;
                   if skip then clean_entries E D acc
                   else clean_entries E D (acc ++ [item]))
                  = if decide (dropped E item) then clean_entries E D acc
                    else clean_entries E D (acc ++ [item])).
  { rewrite skip_direct_spec by done. simpl.
    destruct (decide ([k] ∈ E)) as [Hin|Hin].
    - rewrite bool_decide_eq_true_2 by done.
      by rewrite decide_True by (split; [done|by apply Hiff]).
    - rewrite bool_decide_eq_false_2 by done.
      by rewrite decide_False by (unfold dropped; tauto). }
  by destruct (Value item).
Qed.

Lemma clean_entries_spec D acc :
  string_keyed D = true ->
  clean_entries E D acc = Ok (acc ++ filter_spec E D).
Proof.
  unfold string_keyed.
  revert acc. induction D as [|item D IH]; intros acc HD.
  - simpl. by rewrite app_nil_r.
  - simpl in HD. apply andb_prop in HD as [HD1 HD2].
    apply andb_prop in HD1 as [Hk HD1]. apply andb_prop in HD2 as [Hn HD2].
    assert (HD : string_keys D && forallb nested_string_keys D = true)
      by (by rewrite HD1, HD2).
    destruct (assert_string_key item Hk) as (k & HK & Hname & Hassert).
    rewrite filter_spec_cons.
    destruct (is_mapping (Value item)) eqn:Hmap.
    + destruct (Value item) as [| | | | | |m] eqn:HV; try discriminate.
      simpl. rewrite Hassert, HV. simpl.
      unfold nested_string_keys in Hn. rewrite HV in Hn.
      rewrite clean_nested_spec by done. simpl.
      rewrite decide_False by (unfold dropped; rewrite HV; by intros [? _]).
      rewrite IH by done. unfold rebuild. rewrite HV, Hname.
      by rewrite <- app_assoc.
    + rewrite (clean_entries_direct item k) by done.
      destruct (decide (dropped E item)); [by apply IH|].
      rewrite IH by done. rewrite rebuild_other by done.
      by rewrite <- app_assoc.
Qed.

(** The filter of the code is the filter of the specification on every
    document with string keys and every list of non-empty paths. *)
Lemma filter_playbook_spec D :
  string_keyed D = true ->
  filter_playbook E D = Ok (filter_spec E D).
Proof. intros HD. unfold filter_playbook. by rewrite clean_entries_spec. Qed.

End Refinement.

Lemma CleanPlaybook_filter p E :
  GetPlaybookExclusions p = Ok E -> CleanPlaybook p = filter_playbook E p.
Proof. intros H. unfold CleanPlaybook. by rewrite H. Qed.

(** ** Properties of the filter of the specification *)

Lemma rebuild_Key E item : Key (rebuild E item) = Key item.
Proof. unfold rebuild. by destruct (Value item), (key_name item). Qed.

Lemma rebuild_mapping E item :
  is_mapping (Value item) = true -> is_mapping (Value (rebuild E item)) = true.
Proof.
  unfold rebuild. destruct (Value item) eqn:HV; try done.
  destruct (key_name item); simpl; by rewrite ?HV.
Qed.

Lemma filter_nested_idem E k m :
  filter_nested_spec E k (filter_nested_spec E k m) = filter_nested_spec E k m.
Proof. unfold filter_nested_spec. by apply list_filter_filter_l. Qed.

Lemma rebuild_idem E item : rebuild E (rebuild E item) = rebuild E item.
Proof.
  destruct (is_mapping (Value item)) eqn:Hmap;
    [|by rewrite !rebuild_other by (by rewrite ?rebuild_other)].
  destruct (Value item) as [| | | | | |m] eqn:HV; try discriminate.
  destruct (key_name item) as [k|] eqn:Hname.
  - assert (Hr : rebuild E item
                 = mkMapItem (Key item) (VMapSlice (filter_nested_spec E k m)))
      by (unfold rebuild; by rewrite HV, Hname).
    rewrite Hr. unfold rebuild at 1. simpl.
    change (key_name (mkMapItem (Key item) (VMapSlice (filter_nested_spec E k m))))
      with (key_name item).
    by rewrite Hname, filter_nested_idem.
  - assert (Hr : rebuild E item = item) by (unfold rebuild; by rewrite HV, Hname).
    by rewrite !Hr.
Qed.

Lemma rebuild_kept E item : ¬ dropped E item -> ¬ dropped E (rebuild E item).
Proof.
  intros Hkeep. destruct (is_mapping (Value item)) eqn:Hmap.
  - intros [Hno _]. by rewrite rebuild_mapping in Hno.
  - by rewrite rebuild_other.
Qed.

Lemma filter_spec_idem E D : filter_spec E (filter_spec E D) = filter_spec E D.
Proof.
  induction D as [|item D IH]; [done|].
  rewrite filter_spec_cons. destruct (decide (dropped E item)) as [|Hkeep]; [done|].
  rewrite filter_spec_cons.
  rewrite decide_False by (by apply rebuild_kept).
  by rewrite rebuild_idem, IH.
Qed.

Lemma string_keys_filter (P : MapItem -> Prop) `{forall x, Decision (P x)} m :
  string_keys m = true -> string_keys (filter P m) = true.
Proof.
  unfold string_keys. induction m as [|n m IH]; [done|]. simpl.
  intros [Hn Hm]%andb_prop. rewrite filter_cons.
  destruct (decide (P n)); simpl; [rewrite Hn|]; by apply IH.
Qed.

Lemma rebuild_string_key E item :
  bool_decide (is_Some (key_name (rebuild E item)))
  = bool_decide (is_Some (key_name item)).
Proof. unfold key_name. by rewrite rebuild_Key. Qed.

Lemma rebuild_nested_string_keys E item :
  nested_string_keys item = true -> nested_string_keys (rebuild E item) = true.
Proof.
  unfold nested_string_keys, rebuild.
  destruct (Value item) as [| | | | | |m] eqn:HV; try (by rewrite HV).
  destruct (key_name item); simpl; [|by rewrite HV].
  apply string_keys_filter.
Qed.

Lemma filter_spec_string_keyed E D :
  string_keyed D = true -> string_keyed (filter_spec E D) = true.
Proof.
  unfold string_keyed. induction D as [|item D IH]; [done|]. simpl.
  intros [[Hk HD1]%andb_prop [Hn HD2]%andb_prop]%andb_prop.
  assert (HD : string_keys D && forallb nested_string_keys D = true)
    by (by rewrite HD1, HD2).
  specialize (IH HD). rewrite filter_spec_cons.
  destruct (decide (dropped E item)); [done|]. simpl.
  apply andb_prop in IH as [IH1 IH2].
  rewrite rebuild_string_key, Hk, rebuild_nested_string_keys by done.
  by rewrite IH1, IH2.
Qed.

Lemma filter_spec_keys E D :
  Key <$> filter_spec E D = Key <$> filter (fun item => ¬ dropped E item) D.
Proof.
  unfold filter_spec. rewrite <- list_fmap_compose.
  apply list_fmap_ext. intros _ item _. simpl. apply rebuild_Key.
Qed.

Lemma filter_spec_no_dropped E D item :
  dropped E item -> item ∉ filter_spec E D.
Proof.
  intros [Hno Hmatch] Hin. unfold filter_spec in Hin.
  apply list_elem_of_fmap in Hin as (item0 & -> & Hin0).
  apply list_elem_of_filter in Hin0 as [Hkeep _].
  destruct (is_mapping (Value item0)) eqn:Hmap.
  - by rewrite rebuild_mapping in Hno.
  - rewrite rebuild_other in Hno, Hmatch by done. by apply Hkeep.
Qed.

Lemma filter_spec_named E D item k :
  [k] ∈ E -> item ∈ filter_spec E D -> key_name item = Some k ->
  is_mapping (Value item) = true.
Proof.
  intros HE Hin Hname. destruct (is_mapping (Value item)) eqn:Hmap; [done|].
  exfalso. apply (filter_spec_no_dropped E D item); [|done].
  split; [done|]. by apply (depth1_match_name E item k).
Qed.

Lemma filter_spec_mapping_kept E D item k m :
  item ∈ D -> key_name item = Some k -> Value item = VMapSlice m ->
  mkMapItem (Key item) (VMapSlice (filter_nested_spec E k m)) ∈ filter_spec E D.
Proof.
  intros Hin Hname HV. unfold filter_spec.
  apply list_elem_of_fmap. exists item. split.
  - unfold rebuild. by rewrite HV, Hname.
  - apply list_elem_of_filter. split; [|done].
    intros [Hno _]. by rewrite HV in Hno.
Qed.

(** ** Strings *)

Lemma append_cons c s t : String c s +:+ t = String c (s +:+ t).
Proof. reflexivity. Qed.

Lemma append_assoc s t u : (s +:+ t) +:+ u = s +:+ (t +:+ u).
Proof.
  induction s as [|c s IH]; [done|]. by rewrite !append_cons, IH.
Qed.

Lemma append_empty_r s : s +:+ "" = s.
Proof. induction s as [|c s IH]; [done|]. by rewrite append_cons, IH. Qed.

Lemma Split_not_nil s sep : Split s sep ≠ [].
Proof.
  destruct s as [|c s]; simpl; [done|].
  destruct (Ascii.eqb c sep); [done|]. by destruct (Split s sep).
Qed.

(** Joining the pieces with the separator gives the string back: [Split]
    loses nothing. *)
Lemma join_Split s sep : join (String sep "") (Split s sep) = s.
Proof.
  induction s as [|c s IH]; simpl; [done|].
  pose proof (Split_not_nil s sep) as Hne.
  destruct (Ascii.eqb_spec c sep) as [->|Hc].
  - destruct (Split s sep) as [|x rest] eqn:HS; [done|].
    change (join (String sep "") ("" :: x :: rest))
      with ("" +:+ String sep "" +:+ join (String sep "") (x :: rest)).
    by rewrite IH.
  - destruct (Split s sep) as [|x rest] eqn:HS; [done|].
    destruct rest as [|y rest]; simpl in *; [by rewrite IH|].
    by rewrite append_cons, IH.
Qed.

Lemma parse_exclusions_proper raw : proper_paths (parse_exclusions raw) = true.
Proof.
  unfold parse_exclusions, proper_paths, exclusion_path.
  induction (Split raw ",") as [|x l IH]; simpl; [done|].
  rewrite IH, andb_true_r.
  pose proof (Split_not_nil (TrimPrefix x "/") "/") as Hne.
  by destruct (Split (TrimPrefix x "/") "/").
Qed.

(** Every list of paths that the extractor returns has non-empty paths, so
    the filter never indexes an empty path in [CleanPlaybook]. *)
Lemma extracted_paths_proper p E :
  GetPlaybookExclusions p = Ok E -> proper_paths E = true.
Proof.
  unfold GetPlaybookExclusions. intros H.
  apply bind_Ok in H as (raw & _ & H).
  destruct (String.eqb raw ""); [discriminate|].
  injection H as <-. apply parse_exclusions_proper.
Qed.

(** ** Extraction on documents with unique string keys *)

Lemma lookup_key_None k m : lookup_key k m = None <-> k ∉ names m.
Proof.
  unfold names. induction m as [|item m IH]; simpl.
  - split; [|done]. intros _ H. by apply elem_of_nil in H.
  - destruct (key_name item) as [k'|]; [|done].
    rewrite not_elem_of_cons, <- IH.
    destruct (String.eqb_spec k' k) as [->|Hne].
    + split; [discriminate|]. by intros [Hne _].
    + split; [intros ?; split; congruence|]. by intros [_ ?].
Qed.

Lemma scan_vars_lookup vars r :
  string_keys vars = true ->
  scan_vars vars r
  = match lookup_key exclude_key vars with
    | Some v => assert_string v
    | None => Ok r
    end.
Proof.
  induction vars as [|item vars IH]; simpl; [done|].
  intros [Hk Hv]%andb_prop.
  destruct (assert_string_key item Hk) as (k & _ & -> & ->). simpl.
  destruct (String.eqb k _); simpl; [done|by apply IH].
Qed.

Lemma scan_playbook_absent p r :
  string_keys p = true -> "vars" ∉ names p -> scan_playbook p r = Ok r.
Proof.
  induction p as [|item p IH]; simpl; [done|].
  intros [Hk Hp]%andb_prop Hnot.
  destruct (assert_string_key item Hk) as (k & _ & Hname & ->). simpl.
  unfold names in Hnot. simpl in Hnot. rewrite Hname in Hnot.
  apply not_elem_of_cons in Hnot as [Hne Hnot].
  destruct (String.eqb_spec k "vars"); [done|]. simpl. by apply IH.
Qed.

Lemma scan_playbook_lookup p r :
  unique_keys p = true ->
  scan_playbook p r
  = match lookup_key "vars" p with
    | Some v => do vars <- assert_MapSlice v; scan_vars vars r
    | None => Ok r
    end.
Proof.
  unfold unique_keys. induction p as [|item p IH]; simpl; [done|].
  intros [[Hk Hp]%andb_prop Hdup]%andb_prop.
  apply bool_decide_eq_true in Hdup.
  destruct (assert_string_key item Hk) as (k & _ & Hname & ->). simpl.
  unfold names in Hdup. simpl in Hdup. rewrite Hname in *.
  apply NoDup_cons in Hdup as [Hfresh Hdup].
  destruct (String.eqb_spec k "vars") as [->|Hne]; simpl.
  - destruct (Value item); simpl; try done.
    destruct (scan_vars m r); simpl; try done.
    by apply scan_playbook_absent.
  - apply IH. rewrite Hp. by apply bool_decide_eq_true.
Qed.

(** With no declaration the extractor reports the key as missing. *)
Lemma undeclared_missing p :
  unique_keys p = true -> undeclared p ->
  GetPlaybookExclusions p = Err missing_exclusions.
Proof.
  intros Hp Hun. unfold GetPlaybookExclusions.
  rewrite scan_playbook_lookup by done.
  destruct Hun as [->|(vars & -> & Hv & Hnone)]; [done|]. simpl.
  rewrite scan_vars_lookup by done. by rewrite Hnone.
Qed.

(** A declared string reaches the parser unchanged. *)
Lemma declared_string p vars raw :
  unique_keys p = true ->
  lookup_key "vars" p = Some (VMapSlice vars) ->
  string_keys vars = true ->
  lookup_key exclude_key vars = Some (VString raw) ->
  scan_playbook p "" = Ok raw.
Proof.
  intros Hp Hvars Hv Hraw. rewrite scan_playbook_lookup by done.
  rewrite Hvars. simpl. rewrite scan_vars_lookup by done. by rewrite Hraw.
Qed.

(** ** Paths of three or more segments match nothing *)

Lemma skip_direct_long E1 e E2 k b :
  3 <= length e ->
  skip_direct (E1 ++ e :: E2) k b = skip_direct (E1 ++ E2) k b.
Proof.
  intros He. revert b. induction E1 as [|e1 E1 IH]; intros b; simpl.
  - destruct e as [|e0 [|e1 [|e2 tl]]]; simpl in *; try lia.
    by rewrite andb_false_r.
  - destruct (index e1 0); simpl; [apply IH|done|done].
Qed.

Lemma skip_nested_long E1 e E2 k nk b :
  3 <= length e ->
  skip_nested (E1 ++ e :: E2) k nk b = skip_nested (E1 ++ E2) k nk b.
Proof.
  intros He. revert b. induction E1 as [|e1 E1 IH]; intros b; simpl.
  - destruct e as [|e0 [|e1 [|e2 tl]]]; simpl in *; try lia.
    by destruct (String.eqb k e0).
  - destruct (index e1 0); simpl; [|done|done].
    destruct (if String.eqb k a then _ else _); simpl; [apply IH|done|done].
Qed.

Lemma clean_nested_long E1 e E2 k m acc :
  3 <= length e ->
  clean_nested (E1 ++ e :: E2) k m acc = clean_nested (E1 ++ E2) k m acc.
Proof.
  intros He. revert acc. induction m as [|n m IH]; intros acc; simpl; [done|].
  destruct (assert_string (Key n)); simpl; [|done|done].
  rewrite skip_nested_long by done.
  destruct (skip_nested (E1 ++ E2) k a false) as [[]| |]; simpl; by rewrite ?IH.
Qed.

Lemma filter_playbook_long E1 e E2 D :
  3 <= length e ->
  filter_playbook (E1 ++ e :: E2) D = filter_playbook (E1 ++ E2) D.
Proof.
  intros He. unfold filter_playbook. generalize (@nil MapItem) as acc.
  induction D as [|item D IH]; intros acc; simpl; [done|].
  destruct (assert_string (Key item)); simpl; [|done|done].
  destruct (Value item);
    try (rewrite skip_direct_long by done;
         destruct (skip_direct (E1 ++ E2) a false) as [[]| |]; simpl;
         by rewrite ?IH).
  rewrite clean_nested_long by done.
  destruct (clean_nested (E1 ++ E2) a m []); simpl; by rewrite ?IH.
Qed.

(** ** Serialization loops *)

Lemma list_loop_acc f l i r :
  list_loop f l i r = prefixed r (list_loop f l i "").
Proof.
  revert i r. induction l as [|x l IH]; intros i r; simpl; [done|].
  destruct (f x) as [v| |]; simpl; [|done|done].
  rewrite IH. rewrite (IH _ (_ +:+ v)).
  destruct (list_loop f l (S i) ""); simpl; [|done|done].
  f_equal. destruct (0 <? i)%nat; by rewrite ?append_assoc.
Qed.

Lemma map_loop_acc f m i r :
  map_loop f m i r = prefixed r (map_loop f m i "").
Proof.
  revert i r. induction m as [|item m IH]; intros i r; simpl; [done|].
  destruct (assert_string (Key item)) as [k| |]; simpl; [|done|done].
  destruct (f (Value item)) as [v| |]; simpl; [|done|done].
  rewrite IH. rewrite (IH _ (_ +:+ _)).
  destruct (map_loop f m (S i) ""); simpl; [|done|done].
  f_equal. destruct (0 <? i)%nat; by rewrite ?append_assoc.
Qed.

(** ** Which values the serializer encodes *)

Lemma list_loop_outcome f l :
  Forall (fun x => if encodable x then exists s, f x = Ok s else f x = Panic) l ->
  forall i r,
    if forallb encodable l then exists s, list_loop f l i r = Ok s
    else list_loop f l i r = Panic.
Proof.
  induction 1 as [|x l Hx _ IH]; intros i r; simpl; [eauto|].
  destruct (encodable x); simpl.
  - destruct Hx as [v ->]. simpl. apply IH.
  - by rewrite Hx.
Qed.

Lemma map_loop_outcome f m :
  Forall (fun item => if encodable (Value item)
                      then exists s, f (Value item) = Ok s
                      else f (Value item) = Panic) m ->
  forall i r,
    if forallb (fun item =>
         bool_decide (is_Some (key_name item)) && encodable (Value item)) m
    then exists s, map_loop f m i r = Ok s
    else map_loop f m i r = Panic.
Proof.
  induction 1 as [|item m Hx _ IH]; intros i r; simpl; [eauto|].
  destruct (bool_decide (is_Some (key_name item))) eqn:Hk; simpl.
  - destruct (assert_string_key item Hk) as (k & _ & _ & ->). simpl.
    destruct (encodable (Value item)); simpl.
    + destruct Hx as [v ->]. simpl. apply IH.
    + by rewrite Hx.
  - apply bool_decide_eq_false in Hk. unfold key_name in Hk.
    destruct (Key item); simpl; try done. destruct Hk. by eexists.
Qed.

(** Serialization succeeds on the encodable values and panics on every
    other one; it never returns an error. *)
Lemma marshall_outcome v :
  if encodable v then exists s, marshallPlaybookItem v = Ok s
  else marshallPlaybookItem v = Panic.
Proof.
  induction v as [| b | s | n | f | l IH | m IH] using any_induction;
    simpl; eauto.
  - by apply list_loop_outcome.
  - apply map_loop_outcome. eapply Forall_impl; [exact IH|]. by intros item [_ ?].
Qed.

Lemma marshall_no_error v e : marshallPlaybookItem v ≠ Err e.
Proof.
  pose proof (marshall_outcome v) as H.
  destruct (encodable v); [destruct H as [s ->]|rewrite H]; done.
Qed.

(** ** A boolean inside a list or a mapping *)

Lemma list_loop_position before (x : bool -> any) after :
  ((exists pre post, forall b,
       marshallPlaybookItem (x b) = Ok (pre +:+ bool_literal b +:+ post))
   \/ (forall b, marshallPlaybookItem (x b) = Panic)) ->
  forall i r,
    (exists pre post, forall b,
        list_loop marshallPlaybookItem (before ++ x b :: after) i r
        = Ok (pre +:+ bool_literal b +:+ post))
    \/ (forall b, list_loop marshallPlaybookItem (before ++ x b :: after) i r
                  = Panic).
Proof.
  intros Hx. induction before as [|a before IH]; intros i r; simpl.
  - destruct Hx as [(pre & post & Hx)|Hx];
      [|right; intros b; by rewrite Hx].
    pose proof (marshall_outcome (VSlice after)) as Hafter. simpl in Hafter.
    pose proof (list_loop_outcome marshallPlaybookItem after
                  (proj2 (Forall_forall _ _) (fun v _ => marshall_outcome v))
                  (S i) "") as Hloop.
    destruct (forallb encodable after).
    + destruct Hloop as [s Hs]. left.
      exists ((if (0 <? i)%nat then r +:+ ", " else r) +:+ pre), (post +:+ s).
      intros b. rewrite Hx. simpl. rewrite list_loop_acc, Hs. simpl.
      by rewrite !append_assoc.
    + right. intros b. rewrite Hx. simpl. by rewrite list_loop_acc, Hloop.
  - pose proof (marshall_outcome a) as Ha.
    destruct (encodable a); [destruct Ha as [v ->]|rewrite Ha]; simpl.
    + apply IH.
    + by right.
Qed.

Lemma map_loop_position before key (x : bool -> any) after :
  ((exists pre post, forall b,
       marshallPlaybookItem (x b) = Ok (pre +:+ bool_literal b +:+ post))
   \/ (forall b, marshallPlaybookItem (x b) = Panic)) ->
  forall i r,
    (exists pre post, forall b,
        map_loop marshallPlaybookItem (before ++ mkMapItem key (x b) :: after) i r
        = Ok (pre +:+ bool_literal b +:+ post))
    \/ (forall b,
          map_loop marshallPlaybookItem (before ++ mkMapItem key (x b) :: after) i r
          = Panic).
Proof.
  intros Hx. induction before as [|a before IH]; intros i r; simpl.
  - destruct key as [| | k | | | |]; simpl; try (by right).
    destruct Hx as [(pre & post & Hx)|Hx];
      [|right; intros b; by rewrite Hx].
    pose proof (marshall_outcome (VMapSlice after)) as Hafter. simpl in Hafter.
    assert (Hloop : map_loop marshallPlaybookItem after (S i) "" = Panic
                    \/ exists s, map_loop marshallPlaybookItem after (S i) "" = Ok s).
    { pose proof (map_loop_outcome marshallPlaybookItem after
                    (proj2 (Forall_forall _ _)
                       (fun item _ => marshall_outcome (Value item))) (S i) "") as H.
      destruct (forallb _ after); eauto. }
    destruct Hloop as [Hloop|[s Hs]].
    + right. intros b. rewrite Hx. simpl. by rewrite map_loop_acc, Hloop.
    + left.
      exists ((if (0 <? i)%nat then r +:+ ", " else r) +:+ "('" +:+ k +:+ "', " +:+ pre),
             (post +:+ ")" +:+ s).
      intros b. rewrite Hx. simpl. rewrite map_loop_acc, Hs. simpl.
      by rewrite !append_assoc.
  - destruct (Key a) as [| | k | | | |]; simpl; try (by right).
    pose proof (marshall_outcome (Value a)) as Ha.
    destruct (encodable (Value a)); [destruct Ha as [v ->]|rewrite Ha]; simpl.
    + apply IH.
    + by right.
Qed.

Lemma renders_literal_everywhere pos : renders_literal pos.
Proof.
  unfold renders_literal. induction pos as [|before pos IH after|before key pos IH after]; simpl.
  - left. exists "", "". intros b. by rewrite append_empty_r.
  - by apply list_loop_position.
  - by apply map_loop_position.
Qed.

(** ** Extraction and filtering return no error but the missing declaration *)

Lemma scan_vars_no_error vars r e : scan_vars vars r ≠ Err e.
Proof.
  induction vars as [|item vars IH]; simpl; [done|].
  destruct (Key item); simpl; try done.
  destruct (negb _); [done|]. by destruct (Value item).
Qed.

Lemma scan_playbook_no_error p r e : scan_playbook p r ≠ Err e.
Proof.
  revert r. induction p as [|item p IH]; intros r; simpl; [done|].
  destruct (Key item); simpl; try done.
  destruct (negb _); [done|].
  destruct (Value item); simpl; try done.
  destruct (scan_vars m r) eqn:Hscan; simpl; [done| |done].
  by apply scan_vars_no_error in Hscan.
Qed.

Lemma skip_direct_no_error E k b e : skip_direct E k b ≠ Err e.
Proof.
  revert b. induction E as [|x E IH]; intros b; simpl; [done|].
  destruct x; simpl; [done|apply IH].
Qed.

Lemma skip_nested_no_error E k nk b e : skip_nested E k nk b ≠ Err e.
Proof.
  revert b. induction E as [|x E IH]; intros b; simpl; [done|].
  destruct x as [|e0 [|e1 [|e2 tl]]]; simpl; try done;
    destruct (String.eqb k e0); simpl; apply IH.
Qed.

Lemma clean_nested_no_error E k m acc e : clean_nested E k m acc ≠ Err e.
Proof.
  revert acc. induction m as [|n m IH]; intros acc; simpl; [done|].
  destruct (Key n); simpl; try done.
  destruct (skip_nested E k s false) as [[]| |] eqn:Hskip; simpl; try done.
  by apply skip_nested_no_error in Hskip.
Qed.

Lemma filter_playbook_no_error E D e : filter_playbook E D ≠ Err e.
Proof.
  unfold filter_playbook. generalize (@nil MapItem) as acc.
  induction D as [|item D IH]; intros acc; simpl; [done|].
  destruct (Key item); simpl; try done.
  destruct (Value item);
    try (destruct (skip_direct E s false) as [[]| |] eqn:Hskip; simpl; try done;
         by apply skip_direct_no_error in Hskip).
  destruct (clean_nested E s m []) eqn:Hnested; simpl; try done.
  by apply clean_nested_no_error in Hnested.
Qed.

Lemma CleanPlaybook_error p e : CleanPlaybook p = Err e -> e = missing_exclusions.
Proof.
  unfold CleanPlaybook, GetPlaybookExclusions.
  destruct (scan_playbook p "") as [raw| |] eqn:Hscan; simpl; [| |done].
  - destruct (String.eqb raw ""); simpl; [congruence|].
    intros H. by apply filter_playbook_no_error in H.
  - by apply scan_playbook_no_error in Hscan.
Qed.

(** ** A list of booleans *)

Lemma list_loop_booleans bs i r :
  (0 < i)%nat ->
  list_loop marshallPlaybookItem (VBool <$> bs) i r
  = Ok (r +:+ fold_right (fun b s => ", " +:+ bool_literal b +:+ s) "]" bs).
Proof.
  intros Hi. revert i Hi r. induction bs as [|b bs IH]; intros i Hi r; simpl.
  - done.
  - destruct (Nat.ltb_spec 0 i); [|lia].
    rewrite IH by lia. by rewrite !append_assoc.
Qed.

Lemma join_literals b bs :
  join ", " (bool_literal <$> (b :: bs)) +:+ "]"
  = bool_literal b +:+ fold_right (fun b s => ", " +:+ bool_literal b +:+ s) "]" bs.
Proof.
  revert b. induction bs as [|b' bs IH]; intros b; [done|].
  change (join ", " (bool_literal <$> b :: b' :: bs))
    with (bool_literal b +:+ ", " +:+ join ", " (bool_literal <$> b' :: bs)).
  by rewrite !append_assoc, IH.
Qed.

Lemma marshallPlaybookList_booleans bs :
  marshallPlaybookList (VBool <$> bs)
  = Ok ("[" +:+ join ", " (bool_literal <$> bs) +:+ "]").
Proof.
  unfold marshallPlaybookList. destruct bs as [|b bs]; [done|].
  rewrite join_literals. simpl. rewrite list_loop_booleans by lia.
  by rewrite !append_assoc.
Qed.

(** * The properties of the specification *)

(** ** Allow-set of excludable keys *)

(** C1: an exclusion path whose first segment is outside the allow-set
    ([hosts], [vars]) should make [CleanPlaybook] fail with a
    [VerificationError] before any entry is dropped.  [CleanPlaybook] never
    consults [DynamicLabels]: the only error it returns is the
    [PlaybookError] of a missing declaration, and on [with_secrets], whose
    exclusion [/secrets] names a key outside the allow-set, it succeeds and
    drops the [secrets] entry. *)
Theorem allow_set_not_enforced :
  (forall p message, CleanPlaybook p ≠ Err (VerificationError message))
  /\ ("secrets" ∉ DynamicLabels)
  /\ GetPlaybookExclusions with_secrets = Ok [["secrets"]]
  /\ CleanPlaybook with_secrets
     = Ok [ entry "vars" (VMapSlice [ entry exclude_key (VString "/secrets") ]) ].
Proof.
  split; [|split; [|split; reflexivity]].
  - intros p message H. by apply CleanPlaybook_error in H.
  - unfold DynamicLabels. rewrite !not_elem_of_cons. repeat split; try done.
    apply not_elem_of_nil.
Qed.

(** ** Malformed exclusion paths *)

(** Counterexample to C2 as stated: the exclusion string [/a/b/c] has a
    path of three segments, and the string [/hosts,] has an empty entry;
    [GetPlaybookExclusions] returns both lists of paths and no error. *)
Lemma long_path_accepted :
  GetPlaybookExclusions (declaring (VString "/a/b/c")) = Ok [["a"; "b"; "c"]]
  /\ GetPlaybookExclusions (declaring (VString "/hosts,")) = Ok [["hosts"]; [""]]
  /\ ¬ (exists message,
          GetPlaybookExclusions (declaring (VString "/a/b/c"))
          = Err (PlaybookError message)).
Proof.
  split; [reflexivity|split; [reflexivity|]]. intros [message H]. discriminate H.
Qed.

(** C2, amended: for a document that declares an exclusion string,
    [GetPlaybookExclusions] fails with a [PlaybookError] only when the
    string is empty; otherwise it succeeds whatever the number of segments
    of the entries.  Every comma-separated entry gives one path, nothing of
    the string is lost, every path has at least one segment (an empty entry
    gives the path with the one segment [""]) and holds all the segments of
    its entry: a path of three or more segments is not truncated.  Such a
    path is ignored by the filter, which behaves as if the path were not in
    the list. *)
Theorem exclusions_unvalidated p vars raw :
  unique_keys p = true ->
  lookup_key "vars" p = Some (VMapSlice vars) ->
  string_keys vars = true ->
  lookup_key exclude_key vars = Some (VString raw) ->
  GetPlaybookExclusions p
  = (if String.eqb raw "" then Err missing_exclusions
     else Ok (exclusion_path <$> Split raw ","))
  /\ join "," (Split raw ",") = raw
  /\ (forall exclusion,
        exclusion_path exclusion ≠ []
        /\ join "/" (exclusion_path exclusion) = TrimPrefix exclusion "/")
  /\ (forall E1 e E2 D,
        3 <= length e ->
        filter_playbook (E1 ++ e :: E2) D = filter_playbook (E1 ++ E2) D).
Proof.
  intros Hp Hvars Hv Hraw. repeat split.
  - unfold GetPlaybookExclusions.
    rewrite (declared_string p vars raw) by done. reflexivity.
  - apply join_Split.
  - apply Split_not_nil.
  - apply join_Split.
  - intros. by apply filter_playbook_long.
Qed.

Lemma exclusions_unvalidated_witness :
  GetPlaybookExclusions (declaring (VString "/a/b/c,,/hosts"))
  = Ok [["a"; "b"; "c"]; [""]; ["hosts"]].
Proof.
  refine (proj1 (exclusions_unvalidated (declaring (VString "/a/b/c,,/hosts"))
                   [entry exclude_key (VString "/a/b/c,,/hosts")] "/a/b/c,,/hosts"
                   _ _ _ _)); reflexivity.
Defined.

(** ** Exclusion of a top-level entry *)

(** Counterexample to C3 as stated: [excluding_vars] declares the
    one-segment path [vars]; the value of [vars] is a nested mapping and
    the entry is still in the output, with both of its children. *)
Lemma mapping_entry_survives :
  GetPlaybookExclusions excluding_vars = Ok [["vars"]]
  /\ CleanPlaybook excluding_vars = Ok excluding_vars
  /\ ¬ (forall D', CleanPlaybook excluding_vars = Ok D' ->
                   forall item, item ∈ D' -> Key item ≠ VString "vars").
Proof.
  split; [reflexivity|split; [reflexivity|]].
  intros H. apply (H excluding_vars eq_refl
                     (entry "vars" (VMapSlice
                        [ entry exclude_key (VString "/vars");
                          entry "other" (VString "x") ]))); [|done].
  unfold excluding_vars. apply elem_of_cons. right. apply elem_of_cons. by left.
Qed.

(** C3, amended: for every top-level entry [(key, value)] whose value is not
    a nested mapping and every exclusion list containing the path [[key]],
    the filter removes the entry, and no entry named [key] other than a
    nested mapping is left.  When the value is a nested mapping the
    one-segment path does not remove the entry: it is kept, and only its
    children named by a two-segment path [[key; child]] are removed.  The
    same holds for [CleanPlaybook] when the list is the one the document
    declares. *)
Theorem direct_exclusion D E item k :
  string_keyed D = true ->
  proper_paths E = true ->
  item ∈ D ->
  Key item = VString k ->
  [k] ∈ E ->
  exists D',
    filter_playbook E D = Ok D'
    /\ (GetPlaybookExclusions D = Ok E -> CleanPlaybook D = Ok D')
    /\ (is_mapping (Value item) = false -> item ∉ D')
    /\ (forall item', item' ∈ D' -> Key item' = VString k ->
                      is_mapping (Value item') = true)
    /\ (forall m, Value item = VMapSlice m ->
          mkMapItem (VString k)
            (VMapSlice (filter (fun nested => ¬ depth2_match E k nested) m))
          ∈ D').
Proof.
  intros HD HE Hin HK HkE. exists (filter_spec E D).
  assert (Hname : key_name item = Some k) by (unfold key_name; by rewrite HK).
  split; [by apply filter_playbook_spec|].
  split; [intros HG; rewrite (CleanPlaybook_filter D E HG);
          by apply filter_playbook_spec|].
  split; [|split].
  - intros Hno. apply filter_spec_no_dropped. split; [done|].
    by apply (depth1_match_name E item k).
  - intros item' Hin' HK'. apply (filter_spec_named E D item' k); try done.
    unfold key_name. by rewrite HK'.
  - intros m HV. rewrite <- HK. by apply filter_spec_mapping_kept.
Qed.

Lemma direct_exclusion_witness :
  exists D',
    filter_playbook demo_exclusions demo = Ok D'
    /\ entry "hosts" (VSlice [VString "h1"; VString "h2"]) ∉ D'.
Proof.
  destruct (direct_exclusion demo demo_exclusions
              (entry "hosts" (VSlice [VString "h1"; VString "h2"])) "hosts")
    as (D' & Hfilter & _ & Hgone & _).
  - reflexivity.
  - reflexivity.
  - unfold demo. apply elem_of_cons. right. apply elem_of_cons. by left.
  - reflexivity.
  - unfold demo_exclusions. apply elem_of_cons. by left.
  - exists D'. split; [exact Hfilter|]. by apply Hgone.
Defined.

(** ** Totality of the serializer *)

(** C4: serialization should succeed on every value, numbers and nulls
    being written in their natural string form.  The [default] case of
    [marshallPlaybookItem] asserts that the value is a string, which it
    never is there: every integer, every float and the null value make the
    serializer panic, at the top level and inside a document, and no
    output is produced.  The serializer succeeds exactly on the values made
    of mappings with string keys, lists, booleans and strings, and it never
    returns an error. *)
Theorem number_null_panic :
  (forall n, marshallPlaybookItem (VInt n) = Panic)
  /\ (forall f, marshallPlaybookItem (VFloat f) = Panic)
  /\ marshallPlaybookItem VNil = Panic
  /\ MarshallPlaybook [ entry "other" (VInt 1) ] = Panic
  /\ MarshallPlaybook [ entry "other" VNil ] = Panic
  /\ (forall v, if encodable v then exists s, marshallPlaybookItem v = Ok s
                else marshallPlaybookItem v = Panic).
Proof. repeat split. apply marshall_outcome. Qed.

(** ** The scenario of the specification *)

(** C5: on the document of the scenario the exclusions are parsed as
    expected and the filter drops [hosts] and
    [vars/insights_signature_exclude] and keeps [vars/other]; the
    serialization of the filtered document then panics on the number [1]
    instead of producing the canonical bytes. *)
Theorem demo_pipeline :
  GetPlaybookExclusions demo = Ok demo_exclusions
  /\ CleanPlaybook demo = Ok demo_clean
  /\ MarshallPlaybook demo_clean = Panic
  /\ (do clean <- CleanPlaybook demo; MarshallPlaybook clean)
     ≠ Ok "ordereddict([('name', 'Demo'), ('vars', ordereddict([('other', 1)]))])".
Proof.
  split; [reflexivity|split; [reflexivity|split; [reflexivity|]]].
  intros H. vm_compute in H. discriminate H.
Qed.

(** ** A missing declaration *)

(** C6: a document without a top-level [vars] entry, or whose [vars]
    mapping has no [insights_signature_exclude] entry, is rejected with a
    [PlaybookError]; when the entry is there and its value is not a string
    the extractor panics on the assertion [pair.Value.(string)] instead of
    returning the error. *)
Theorem non_string_declaration_panics :
  (forall p, unique_keys p = true -> undeclared p ->
             GetPlaybookExclusions p = Err missing_exclusions)
  /\ GetPlaybookExclusions (declaring (VBool true)) = Panic
  /\ GetPlaybookExclusions (declaring (VInt 5)) = Panic
  /\ GetPlaybookExclusions (declaring VNil) = Panic.
Proof.
  split; [|repeat split]. intros p Hp Hun. by apply undeclared_missing.
Qed.

(** ** Order of the entries *)

(** C7: for every document [D] and list of exclusions [E], the keys of the
    filtered document are the keys of [D], in the order of [D], without
    the keys of the entries that are excluded (an entry whose value is not
    a nested mapping and whose key is a path of [E]); in particular they
    are a subsequence of the keys of [D]. *)
Theorem filter_preserves_order D E :
  string_keyed D = true ->
  proper_paths E = true ->
  exists D',
    filter_playbook E D = Ok D'
    /\ Key <$> D' = Key <$> filter (fun item => ¬ dropped E item) D
    /\ (Key <$> D') `sublist_of` (Key <$> D).
Proof.
  intros HD HE. exists (filter_spec E D).
  split; [by apply filter_playbook_spec|].
  split; [apply filter_spec_keys|].
  rewrite filter_spec_keys. apply fmap_sublist, sublist_filter.
Qed.

Lemma filter_preserves_order_witness :
  exists D',
    filter_playbook demo_exclusions demo = Ok D'
    /\ Key <$> D' = Key <$> filter (fun item => ¬ dropped demo_exclusions item) demo
    /\ (Key <$> D') `sublist_of` (Key <$> demo).
Proof.
  apply (filter_preserves_order demo demo_exclusions); reflexivity.
Defined.

(** ** Idempotence *)

(** C8: for every document [D] and list of exclusions [E], the filter
    returns a document, and filtering that document again with [E] returns
    the same document. *)
Theorem filter_idempotent D E :
  string_keyed D = true ->
  proper_paths E = true ->
  exists D',
    filter_playbook E D = Ok D' /\ filter_playbook E D' = Ok D'.
Proof.
  intros HD HE. exists (filter_spec E D).
  split; [by apply filter_playbook_spec|].
  rewrite filter_playbook_spec; [|done|by apply filter_spec_string_keyed].
  by rewrite filter_spec_idem.
Qed.

Lemma filter_idempotent_witness :
  exists D',
    filter_playbook demo_exclusions demo = Ok D'
    /\ filter_playbook demo_exclusions D' = Ok D'.
Proof.
  apply (filter_idempotent demo demo_exclusions); reflexivity.
Defined.

(** ** Booleans *)

(** C9: a boolean is rendered as [True] or [False]: on its own, in a list
    of booleans, and at every position of a value, however deep.  Whenever
    the value around the position is one that the serializer encodes
    (mappings with string keys, lists, booleans and strings), the
    serialization succeeds and its output is the literal between a prefix
    and a suffix that do not depend on the boolean. *)
Theorem booleans_capitalized :
  marshallPlaybookItem (VBool true) = Ok "True"
  /\ marshallPlaybookItem (VBool false) = Ok "False"
  /\ (forall bs,
        marshallPlaybookList (VBool <$> bs)
        = Ok ("[" +:+ join ", " ((fun b : bool => if b then "True" else "False") <$> bs)
                  +:+ "]"))
  /\ (forall pos,
        encodable (plug pos (VBool true)) = true ->
        exists pre post, forall b : bool,
          marshallPlaybookItem (plug pos (VBool b))
          = Ok (pre +:+ (if b then "True" else "False") +:+ post)).
Proof.
  split; [reflexivity|split; [reflexivity|split]].
  - apply marshallPlaybookList_booleans.
  - intros pos Hpos.
    destruct (renders_literal_everywhere pos) as [Hok|Hpanic]; [exact Hok|].
    pose proof (marshall_outcome (plug pos (VBool true))) as Hout.
    rewrite Hpos in Hout. destruct Hout as [s Hs].
    rewrite Hpanic in Hs. discriminate Hs.
Qed.

Lemma booleans_capitalized_witness :
  exists pre post, forall b : bool,
    marshallPlaybookItem
      (plug (InMap [entry "name" (VString "Demo")] (VString "flags")
               (InList [VBool false] Here [VString "x"]) [])
            (VBool b))
    = Ok (pre +:+ (if b then "True" else "False") +:+ post).
Proof.
  apply (proj2 (proj2 (proj2 booleans_capitalized))
           (InMap [entry "name" (VString "Demo")] (VString "flags")
              (InList [VBool false] Here [VString "x"]) [])).
  reflexivity.
Defined.

(** ** An empty declaration *)

(** C10: for every document whose [vars] mapping has an
    [insights_signature_exclude] entry with the empty string as value,
    [GetPlaybookExclusions] fails with the [PlaybookError] of a missing
    key, the outcome it has on every document without the declaration. *)
Theorem empty_declaration_is_missing p vars :
  unique_keys p = true ->
  lookup_key "vars" p = Some (VMapSlice vars) ->
  string_keys vars = true ->
  lookup_key exclude_key vars = Some (VString "") ->
  GetPlaybookExclusions p
  = Err (PlaybookError "playbook doesn't contain key 'insights_signature_exclude'")
  /\ (forall q, unique_keys q = true -> undeclared q ->
                GetPlaybookExclusions q = GetPlaybookExclusions p).
Proof.
  intros Hp Hvars Hv Hraw.
  assert (H : GetPlaybookExclusions p = Err missing_exclusions).
  { unfold GetPlaybookExclusions.
    rewrite (declared_string p vars "") by done. reflexivity. }
  split; [exact H|]. intros q Hq Hun. rewrite H. by apply undeclared_missing.
Qed.

Lemma empty_declaration_is_missing_witness :
  GetPlaybookExclusions (declaring (VString ""))
  = Err (PlaybookError "playbook doesn't contain key 'insights_signature_exclude'").
Proof.
  refine (proj1 (empty_declaration_is_missing (declaring (VString ""))
                   [entry exclude_key (VString "")] _ _ _ _)); reflexivity.
Defined.

(** * Further properties of the code *)

(** ** The filter *)

(** X1: on a document with string keys and a list of non-empty paths, the
    loops of [CleanPlaybook] compute the filter of section 4.3: the entries
    that are not nested mappings and are named by a one-segment path are
    dropped, every other entry is kept in place, and a nested mapping is
    replaced by its entries that no two-segment path names. *)
Theorem filter_refines_specification D E :
  string_keyed D = true ->
  proper_paths E = true ->
  filter_playbook E D = Ok (filter_spec E D).
Proof. intros HD HE. by apply filter_playbook_spec. Qed.

Lemma filter_refines_specification_witness :
  filter_playbook demo_exclusions demo = Ok (filter_spec demo_exclusions demo).
Proof.
  apply (filter_refines_specification demo demo_exclusions); reflexivity.
Defined.

Lemma filter_all {A} (P : A -> Prop) `{forall x, Decision (P x)} (l : list A) :
  Forall P l -> filter P l = l.
Proof.
  induction 1 as [|x l Hx _ IH]; [done|].
  rewrite filter_cons, decide_True by done. by rewrite IH.
Qed.

Lemma item_eta item : mkMapItem (Key item) (Value item) = item.
Proof. by destruct item. Qed.

(** X2: exclusions that name nothing in the document leave it as it is. *)
Theorem unmatched_exclusions_keep_document D E :
  string_keyed D = true ->
  proper_paths E = true ->
  (forall item k, item ∈ D -> key_name item = Some k ->
                  is_mapping (Value item) = false -> [k] ∉ E) ->
  (forall item k m nested nk,
      item ∈ D -> key_name item = Some k -> Value item = VMapSlice m ->
      nested ∈ m -> key_name nested = Some nk -> [k; nk] ∉ E) ->
  filter_playbook E D = Ok D.
Proof.
  intros HD HE Hdirect Hnested. rewrite filter_playbook_spec by done.
  f_equal. clear HD. induction D as [|item D IH]; [done|].
  rewrite filter_spec_cons.
  assert (Hkeep : ¬ dropped E item).
  { intros [Hno Hmatch]. unfold depth1_match in Hmatch.
    destruct (key_name item) as [k|] eqn:Hname; [|done].
    apply (Hdirect item k); try done. by left. }
  rewrite decide_False by done.
  rewrite IH.
  - f_equal. unfold rebuild.
    destruct (Value item) as [| | | | | |m] eqn:HV; try done.
    destruct (key_name item) as [k|] eqn:Hname; [|done].
    unfold filter_nested_spec. rewrite filter_all.
    + rewrite <- HV. apply item_eta.
    + apply Forall_forall. intros nested Hin Hmatch.
      unfold depth2_match in Hmatch.
      destruct (key_name nested) as [nk|] eqn:Hnk; [|done].
      apply (Hnested item k m nested nk); try done. by left.
  - intros item' k Hin. apply Hdirect. by right.
  - intros item' k m nested nk Hin. apply Hnested. by right.
Qed.

Lemma unmatched_exclusions_keep_document_witness :
  filter_playbook [["hosts"]; ["vars"; "x"]] demo_clean = Ok demo_clean.
Proof.
  apply (unmatched_exclusions_keep_document demo_clean [["hosts"]; ["vars"; "x"]]).
  - reflexivity.
  - reflexivity.
  - intros item k Hin Hname Hno.
    unfold demo_clean in Hin. rewrite !elem_of_cons in Hin.
    destruct Hin as [->|[->|Hin]]; [| |by apply elem_of_nil in Hin];
      cbv in Hname, Hno; simplify_eq.
    rewrite !not_elem_of_cons. repeat split; try discriminate.
    apply not_elem_of_nil.
  - intros item k m nested nk Hin Hname HV Hn Hnk.
    unfold demo_clean in Hin. rewrite !elem_of_cons in Hin.
    destruct Hin as [->|[->|Hin]]; [| |by apply elem_of_nil in Hin];
      cbv in Hname, HV; simplify_eq.
    rewrite !elem_of_cons in Hn.
    destruct Hn as [->|Hn]; [|by apply elem_of_nil in Hn].
    cbv in Hnk. simplify_eq.
    rewrite !not_elem_of_cons. repeat split; try discriminate.
    apply not_elem_of_nil.
Defined.

Lemma filter_spec_same_paths E E' D :
  (forall e, e ∈ E <-> e ∈ E') -> filter_spec E D = filter_spec E' D.
Proof.
  intros Hsame. unfold filter_spec.
  assert (Hd1 : forall item, depth1_match E item <-> depth1_match E' item).
  { intros item. unfold depth1_match. destruct (key_name item); [apply Hsame|done]. }
  assert (Hd2 : forall k n, depth2_match E k n <-> depth2_match E' k n).
  { intros k n. unfold depth2_match. destruct (key_name n); [apply Hsame|done]. }
  rewrite (list_filter_iff _ (fun item => ¬ dropped E' item)).
  - apply list_fmap_ext. intros _ item _. unfold rebuild.
    destruct (Value item); try done. destruct (key_name item); [|done].
    unfold filter_nested_spec. f_equal. f_equal.
    apply list_filter_iff. intros n. by rewrite Hd2.
  - intros item. unfold dropped. by rewrite Hd1.
Qed.

(** X3: the outcome of the filter depends on the paths that occur in the
    list of exclusions only, not on their order or on how often a path is
    repeated. *)
Theorem filter_ignores_order_of_exclusions D E E' :
  string_keyed D = true ->
  proper_paths E = true ->
  proper_paths E' = true ->
  (forall e, e ∈ E <-> e ∈ E') ->
  filter_playbook E D = filter_playbook E' D.
Proof.
  intros HD HE HE' Hsame. rewrite !filter_playbook_spec by done.
  f_equal. by apply filter_spec_same_paths.
Qed.

Lemma filter_ignores_order_of_exclusions_witness :
  filter_playbook demo_exclusions demo
  = filter_playbook
      [["vars"; "insights_signature_exclude"]; ["hosts"]; ["hosts"]] demo.
Proof.
  apply (filter_ignores_order_of_exclusions demo demo_exclusions
           [["vars"; "insights_signature_exclude"]; ["hosts"]; ["hosts"]]);
    try reflexivity.
  intros e. unfold demo_exclusions. rewrite !elem_of_cons. tauto.
Defined.

Lemma rebuild_key_name E item : key_name (rebuild E item) = key_name item.
Proof. unfold key_name. by rewrite rebuild_Key. Qed.

Lemma rebuild_compose E1 E2 item :
  rebuild E2 (rebuild E1 item) = rebuild (E1 ++ E2) item.
Proof.
  destruct (is_mapping (Value item)) eqn:Hmap;
    [|by rewrite !rebuild_other by (by rewrite ?rebuild_other)].
  destruct (Value item) as [| | | | | |m] eqn:HV; try discriminate.
  destruct (key_name item) as [k|] eqn:Hname.
  - assert (Hr : rebuild E1 item
                 = mkMapItem (Key item) (VMapSlice (filter_nested_spec E1 k m)))
      by (unfold rebuild; by rewrite HV, Hname).
    rewrite Hr. unfold rebuild. simpl. rewrite HV.
    change (key_name (mkMapItem (Key item) (VMapSlice (filter_nested_spec E1 k m))))
      with (key_name item).
    rewrite Hname. f_equal. f_equal.
    unfold filter_nested_spec. rewrite list_filter_filter.
    apply list_filter_iff. intros n. unfold depth2_match.
    destruct (key_name n); [|tauto]. rewrite elem_of_app. tauto.
  - assert (Hr : forall E, rebuild E item = item)
      by (intros E; unfold rebuild; by rewrite HV, Hname).
    by rewrite !Hr.
Qed.

Lemma filter_spec_compose E1 E2 D :
  filter_spec E2 (filter_spec E1 D) = filter_spec (E1 ++ E2) D.
Proof.
  induction D as [|item D IH]; [done|].
  rewrite !(filter_spec_cons _ item).
  assert (Happ : dropped (E1 ++ E2) item <-> dropped E1 item \/ dropped E2 item).
  { unfold dropped, depth1_match. destruct (key_name item).
    - rewrite elem_of_app. tauto.
    - tauto. }
  destruct (decide (dropped E1 item)) as [H1|H1].
  - by rewrite decide_True by tauto.
  - rewrite filter_spec_cons.
    assert (H2 : dropped E2 (rebuild E1 item) <-> dropped E2 item).
    { destruct (is_mapping (Value item)) eqn:Hmap.
      - unfold dropped. rewrite rebuild_mapping, Hmap by done.
        split; by intros [? _].
      - by rewrite rebuild_other. }
    destruct (decide (dropped E2 item)) as [H2'|H2'].
    + rewrite decide_True by tauto. by rewrite decide_True by tauto.
    + rewrite decide_False by tauto. rewrite decide_False by tauto.
      by rewrite rebuild_compose, IH.
Qed.

Lemma proper_paths_app E1 E2 :
  proper_paths E1 = true -> proper_paths E2 = true ->
  proper_paths (E1 ++ E2) = true.
Proof.
  intros H1 H2. unfold proper_paths in *. rewrite forallb_app. by rewrite H1, H2.
Qed.

(** X4: filtering with one list of exclusions and then with another is
    filtering once with both. *)
Theorem filter_twice_is_filter_both D E1 E2 :
  string_keyed D = true ->
  proper_paths E1 = true ->
  proper_paths E2 = true ->
  exists D1,
    filter_playbook E1 D = Ok D1
    /\ filter_playbook E2 D1 = filter_playbook (E1 ++ E2) D.
Proof.
  intros HD H1 H2. exists (filter_spec E1 D).
  split; [by apply filter_playbook_spec|].
  rewrite !filter_playbook_spec;
    try done; [|by apply proper_paths_app|by apply filter_spec_string_keyed].
  by rewrite filter_spec_compose.
Qed.

Lemma filter_twice_is_filter_both_witness :
  exists D1,
    filter_playbook [["hosts"]] demo = Ok D1
    /\ filter_playbook [["vars"; "insights_signature_exclude"]] D1
       = filter_playbook demo_exclusions demo.
Proof.
  apply (filter_twice_is_filter_both demo [["hosts"]]
           [["vars"; "insights_signature_exclude"]]); reflexivity.
Defined.

(** ** Excluded content does not reach the output *)

Lemma clean_entries_prefix E before D D' :
  (forall acc, clean_entries E D acc = clean_entries E D' acc) ->
  forall acc, clean_entries E (before ++ D) acc = clean_entries E (before ++ D') acc.
Proof.
  intros Hsame. induction before as [|item before IH]; intros acc; simpl; [done|].
  destruct (assert_string (Key item)) as [k| |]; simpl; [|done|done].
  destruct (Value item);
    try (destruct (skip_direct E k false) as [[]| |]; simpl; by rewrite ?IH).
  destruct (clean_nested E k m []); simpl; by rewrite ?IH.
Qed.

(** X5: the value of a top-level entry that a one-segment path excludes has
    no influence on the filtered document, as long as it is not a nested
    mapping: two documents that differ in that value only are filtered to
    the same document. *)
Theorem excluded_value_is_irrelevant E before k v v' after :
  proper_paths E = true ->
  [k] ∈ E ->
  is_mapping v = false ->
  is_mapping v' = false ->
  filter_playbook E (before ++ entry k v :: after)
  = filter_playbook E (before ++ entry k v' :: after).
Proof.
  intros HE Hk Hv Hv'. unfold filter_playbook. apply clean_entries_prefix.
  intros acc.
  rewrite (clean_entries_direct E HE (entry k v) k) by done.
  rewrite (clean_entries_direct E HE (entry k v') k) by done.
  assert (Hd : forall x, is_mapping x = false -> dropped E (entry k x)).
  { intros x Hx. split; [done|]. by apply (depth1_match_name E _ k). }
  by rewrite !decide_True by (by apply Hd).
Qed.

Lemma excluded_value_is_irrelevant_witness :
  filter_playbook demo_exclusions
    ([entry "name" (VString "Demo")]
     ++ entry "hosts" (VSlice [VString "h1"; VString "h2"])
     :: [entry "vars" (VMapSlice [])])
  = filter_playbook demo_exclusions
      ([entry "name" (VString "Demo")]
       ++ entry "hosts" (VString "localhost")
       :: [entry "vars" (VMapSlice [])]).
Proof.
  apply (excluded_value_is_irrelevant demo_exclusions
           [entry "name" (VString "Demo")] "hosts"); try reflexivity.
  unfold demo_exclusions. apply elem_of_cons. by left.
Defined.

Lemma clean_nested_prefix E k before m m' :
  (forall acc, clean_nested E k m acc = clean_nested E k m' acc) ->
  forall acc, clean_nested E k (before ++ m) acc = clean_nested E k (before ++ m') acc.
Proof.
  intros Hsame. induction before as [|n before IH]; intros acc; simpl; [done|].
  destruct (assert_string (Key n)) as [nk| |]; simpl; [|done|done].
  destruct (skip_nested E k nk false) as [[]| |]; simpl; by rewrite ?IH.
Qed.

(** X6: the value of a nested entry that a two-segment path excludes has no
    influence on the filtered document, whatever the value is. *)
Theorem excluded_nested_value_is_irrelevant E before k inner nk v v' rest after :
  proper_paths E = true ->
  [k; nk] ∈ E ->
  filter_playbook E
    (before ++ entry k (VMapSlice (inner ++ entry nk v :: rest)) :: after)
  = filter_playbook E
      (before ++ entry k (VMapSlice (inner ++ entry nk v' :: rest)) :: after).
Proof.
  intros HE Hk. unfold filter_playbook. apply clean_entries_prefix.
  intros acc. simpl.
  assert (Hn : forall acc',
    clean_nested E k (inner ++ entry nk v :: rest) acc'
    = clean_nested E k (inner ++ entry nk v' :: rest) acc').
  { apply clean_nested_prefix. intros acc'. simpl.
    rewrite skip_nested_spec by done.
    by rewrite bool_decide_eq_true_2 by done. }
  by rewrite Hn.
Qed.

Lemma excluded_nested_value_is_irrelevant_witness :
  filter_playbook demo_exclusions
    ([] ++ entry "vars" (VMapSlice
       ([] ++ entry "insights_signature_exclude" (VString "/hosts")
        :: [entry "other" (VBool true)])) :: [])
  = filter_playbook demo_exclusions
      ([] ++ entry "vars" (VMapSlice
         ([] ++ entry "insights_signature_exclude" (VInt 7)
          :: [entry "other" (VBool true)])) :: []).
Proof.
  apply (excluded_nested_value_is_irrelevant demo_exclusions [] "vars" []
           "insights_signature_exclude"); [reflexivity|].
  unfold demo_exclusions. apply elem_of_cons. right. apply elem_of_cons. by left.
Defined.

(** ** When [CleanPlaybook] succeeds and when it panics *)

(** X7: once the exclusions are extracted, [CleanPlaybook] succeeds on every
    document with string keys: the paths it indexes are never empty, and
    the result is the filter of the specification for the declared list. *)
Theorem CleanPlaybook_succeeds p E :
  GetPlaybookExclusions p = Ok E ->
  string_keyed p = true ->
  CleanPlaybook p = Ok (filter_spec E p).
Proof.
  intros HG Hp. rewrite (CleanPlaybook_filter p E HG).
  apply filter_playbook_spec; [|done]. by apply (extracted_paths_proper p).
Qed.

Lemma CleanPlaybook_succeeds_witness :
  CleanPlaybook demo = Ok (filter_spec demo_exclusions demo).
Proof. apply (CleanPlaybook_succeeds demo demo_exclusions); reflexivity. Defined.

Lemma scan_playbook_non_string p r :
  string_keys p = false -> scan_playbook p r = Panic.
Proof.
  revert r. induction p as [|item p IH]; intros r Hp; simpl in *; [done|].
  destruct (bool_decide (is_Some (key_name item))) eqn:Hk; simpl in Hp.
  - destruct (assert_string_key item Hk) as (k & _ & _ & ->). simpl.
    destruct (negb _); [by apply IH|].
    destruct (Value item); simpl; try done.
    destruct (scan_vars m r) eqn:Hscan; simpl; [by apply IH| |done].
    by apply scan_vars_no_error in Hscan.
  - apply bool_decide_eq_false in Hk. unfold key_name in Hk.
    destruct (Key item); simpl; try done. destruct Hk. by eexists.
Qed.

(** X8: a document with a top-level key that is not a string (a number, a
    boolean, null, a list or a mapping used as a key) makes the extraction,
    and with it [CleanPlaybook], panic: the outer loop asserts every
    top-level key to be a string. *)
Theorem non_string_key_panics p :
  string_keys p = false ->
  GetPlaybookExclusions p = Panic /\ CleanPlaybook p = Panic.
Proof.
  intros Hp. unfold CleanPlaybook, GetPlaybookExclusions.
  by rewrite scan_playbook_non_string.
Qed.

Lemma non_string_key_panics_witness :
  GetPlaybookExclusions
    (mkMapItem (VInt 1) (VString "x") :: declaring (VString "/hosts")) = Panic.
Proof.
  refine (proj1 (non_string_key_panics
                   (mkMapItem (VInt 1) (VString "x")
                    :: declaring (VString "/hosts")) _)).
  reflexivity.
Defined.

Lemma scan_playbook_not_mapping p v r :
  lookup_key "vars" p = Some v -> is_mapping v = false ->
  scan_playbook p r = Panic.
Proof.
  intros Hlook Hv. induction p as [|item p IH]; simpl in *; [done|].
  unfold key_name in Hlook.
  destruct (Key item) as [| | k | | | |]; simpl; try done.
  destruct (String.eqb k "vars"); simpl.
  - simplify_eq. by destruct (Value item).
  - by apply IH.
Qed.

(** X9: when the first top-level entry named [vars] is not a mapping (a
    scalar, a list or null), the extraction panics on the assertion
    [item.Value.(yaml.MapSlice)] instead of reporting a missing
    declaration. *)
Theorem vars_not_mapping_panics p v :
  lookup_key "vars" p = Some v ->
  is_mapping v = false ->
  GetPlaybookExclusions p = Panic /\ CleanPlaybook p = Panic.
Proof.
  intros Hlook Hv. unfold CleanPlaybook, GetPlaybookExclusions.
  by rewrite (scan_playbook_not_mapping p v).
Qed.

Lemma vars_not_mapping_panics_witness :
  GetPlaybookExclusions [entry "name" (VString "Demo"); entry "vars" VNil] = Panic.
Proof.
  refine (proj1 (vars_not_mapping_panics
                   [entry "name" (VString "Demo"); entry "vars" VNil] VNil _ _));
    reflexivity.
Defined.

(** ** Several [vars] entries *)

Lemma scan_playbook_app before after r :
  scan_playbook (before ++ after) r
  = do r' <- scan_playbook before r; scan_playbook after r'.
Proof.
  revert r. induction before as [|item before IH]; intros r; simpl; [done|].
  destruct (assert_string (Key item)) as [k| |]; simpl; [|done|done].
  destruct (negb _); [by apply IH|].
  destruct (assert_MapSlice (Value item)) as [vars| |]; simpl; [|done|done].
  destruct (scan_vars vars r); simpl; [by apply IH|done|done].
Qed.

(** X10: the outer loop of the extraction does not stop at the first [vars]
    entry.  When a document has several, the declaration of the last one
    that has the key is used; a last [vars] entry without the key leaves
    the declaration found before it in place. *)
Theorem last_vars_entry_wins before vars after earlier :
  scan_playbook before "" = Ok earlier ->
  string_keys vars = true ->
  string_keys after = true ->
  "vars" ∉ names after ->
  (forall raw,
      lookup_key exclude_key vars = Some (VString raw) ->
      GetPlaybookExclusions (before ++ entry "vars" (VMapSlice vars) :: after)
      = GetPlaybookExclusions (declaring (VString raw)))
  /\ (lookup_key exclude_key vars = None ->
      GetPlaybookExclusions (before ++ entry "vars" (VMapSlice vars) :: after)
      = GetPlaybookExclusions (declaring (VString earlier))).
Proof.
  intros Hbefore Hvars Hafter Hnot.
  assert (Hscan : scan_playbook (before ++ entry "vars" (VMapSlice vars) :: after) ""
                  = match lookup_key exclude_key vars with
                    | Some v => assert_string v
                    | None => Ok earlier
                    end).
  { rewrite scan_playbook_app, Hbefore. simpl.
    rewrite scan_vars_lookup by done.
    destruct (lookup_key exclude_key vars) as [v|]; simpl.
    - destruct (assert_string v); simpl; [|done|done].
      by apply scan_playbook_absent.
    - by apply scan_playbook_absent. }
  split.
  - intros raw Hraw. unfold GetPlaybookExclusions. rewrite Hscan, Hraw. done.
  - intros Hnone. unfold GetPlaybookExclusions. rewrite Hscan, Hnone. done.
Qed.

Lemma last_vars_entry_wins_witness :
  GetPlaybookExclusions
    (declaring (VString "/hosts")
     ++ entry "vars" (VMapSlice [entry exclude_key (VString "/name")]) :: [])
  = GetPlaybookExclusions (declaring (VString "/name")).
Proof.
  refine (proj1 (last_vars_entry_wins (declaring (VString "/hosts"))
                   [entry exclude_key (VString "/name")] [] "/hosts" _ _ _ _)
            "/name" _); try reflexivity.
  apply not_elem_of_nil.
Defined.

(** ** The paths that the extraction returns *)

(** X11: the slash in front of an exclusion is optional, and only one is
    stripped: [/key] and [key] give the same path, while the path of
    [//key] starts with an empty segment. *)
Theorem leading_slash_optional s :
  (forall rest, s ≠ String "/" rest) ->
  exclusion_path (String "/" s) = exclusion_path s
  /\ exclusion_path s = Split s "/"
  /\ exclusion_path (String "/" (String "/" s)) = "" :: Split s "/".
Proof.
  intros Hs. unfold exclusion_path, TrimPrefix.
  assert (Hcut : cut_prefix s "/" = None).
  { destruct s as [|c s]; [done|]. simpl.
    destruct (Ascii.eqb_spec c "/") as [->|]; [|done]. by destruct (Hs s). }
  rewrite Hcut. simpl.
  assert (Hempty : cut_prefix s "" = Some s) by (by destruct s).
  by rewrite Hempty.
Qed.

Lemma leading_slash_optional_witness :
  exclusion_path "/vars/other" = exclusion_path "vars/other".
Proof.
  refine (proj1 (leading_slash_optional "vars/other" _)).
  intros rest H. discriminate H.
Defined.

Lemma Split_length s sep : length (Split s sep) = S (count_byte sep s).
Proof.
  induction s as [|c s IH]; [done|]. simpl.
  destruct (Ascii.eqb c sep); simpl; [by rewrite IH|].
  pose proof (Split_not_nil s sep). by destruct (Split s sep).
Qed.

Lemma Split_count c s sep piece :
  piece ∈ Split s sep ->
  count_byte c piece <= count_byte c s
  /\ count_byte sep piece = 0.
Proof.
  revert piece. induction s as [|c' s IH]; intros piece; simpl.
  - intros ->%list_elem_of_singleton. done.
  - destruct (Ascii.eqb_spec c' sep) as [Heq|Hne].
    + intros [->|Hin]%elem_of_cons; simpl; [split; lia|].
      destruct (IH piece Hin) as [Hc Hsep]. split; [|done].
      destruct (Ascii.eqb c' c); lia.
    + pose proof (Split_not_nil s sep).
      destruct (Split s sep) as [|first others]; [done|].
      intros [->|Hin]%elem_of_cons.
      * destruct (IH first) as [Hc Hsep]; [by left|]. simpl.
        destruct (Ascii.eqb_spec c' sep); [done|]. split; [|done].
        destruct (Ascii.eqb c' c); lia.
      * destruct (IH piece) as [Hc Hsep]; [by right|]. split; [|done].
        destruct (Ascii.eqb c' c); lia.
Qed.

Lemma TrimPrefix_count c s prefix :
  count_byte c (TrimPrefix s prefix) <= count_byte c s.
Proof.
  unfold TrimPrefix.
  destruct (cut_prefix s prefix) as [rest|] eqn:Hcut; [|done].
  revert s Hcut.
  induction prefix as [|p prefix IH]; intros [|c' s] Hcut; simpl in *;
    try (by simplify_eq).
  destruct (Ascii.eqb c' p); [|done]. apply IH in Hcut. lia.
Qed.

(** X12: every list of paths that the extraction returns is well formed
    for the filter: it has one path for each comma-separated entry, so at
    least one; every path has at least one segment; and no segment
    contains a slash or a comma. *)
Theorem extracted_paths_well_formed p E :
  GetPlaybookExclusions p = Ok E ->
  1 <= length E
  /\ (forall e, e ∈ E ->
        1 <= length e
        /\ forall segment, segment ∈ e ->
             has_byte "/" segment = false /\ has_byte "," segment = false).
Proof.
  unfold GetPlaybookExclusions. intros H.
  apply bind_Ok in H as (raw & _ & H).
  destruct (String.eqb raw ""); [discriminate|]. injection H as <-.
  unfold parse_exclusions. split.
  - rewrite length_fmap, Split_length. lia.
  - intros e (exclusion & -> & Hin)%list_elem_of_fmap. unfold exclusion_path.
    split; [rewrite Split_length; lia|].
    intros segment Hseg. unfold has_byte.
    destruct (Split_count "," _ _ _ Hseg) as [Hcomma Hslash].
    destruct (Split_count "/" _ _ _ Hin) as [_ Hentry].
    pose proof (TrimPrefix_count "," exclusion "/").
    rewrite Hslash. replace (count_byte "," segment) with 0 by lia. done.
Qed.

Lemma extracted_paths_well_formed_witness :
  1 <= length demo_exclusions.
Proof.
  refine (proj1 (extracted_paths_well_formed demo demo_exclusions _)).
  reflexivity.
Defined.

(** ** Cleaning a cleaned document *)

Lemma names_cons item m :
  names (item :: m)
  = match key_name item with Some k => k :: names m | None => names m end.
Proof. reflexivity. Qed.

Lemma names_filter_spec E D : names (filter_spec E D) `sublist_of` names D.
Proof.
  induction D as [|item D IH]; [done|].
  rewrite filter_spec_cons, (names_cons item).
  destruct (decide (dropped E item)).
  - destruct (key_name item); [by apply sublist_cons|done].
  - rewrite names_cons, rebuild_key_name.
    destruct (key_name item); [by apply sublist_skip|done].
Qed.

Lemma lookup_key_filter_spec E D k m :
  lookup_key k D = Some (VMapSlice m) ->
  lookup_key k (filter_spec E D) = Some (VMapSlice (filter_nested_spec E k m)).
Proof.
  induction D as [|item D IH]; [done|]. simpl. intros Hlook.
  rewrite filter_spec_cons.
  destruct (key_name item) as [k'|] eqn:Hname.
  - destruct (String.eqb_spec k' k) as [Heq|Hne].
    + subst k'. simplify_eq.
      rewrite decide_False by (intros [Hno _]; by rewrite Hlook in Hno).
      simpl. rewrite rebuild_key_name, Hname, String.eqb_refl.
      unfold rebuild. by rewrite Hlook, Hname.
    + destruct (decide (dropped E item)); [by apply IH|].
      simpl. rewrite rebuild_key_name, Hname.
      destruct (String.eqb_spec k' k); [done|]. by apply IH.
  - destruct (decide (dropped E item)); [by apply IH|].
    simpl. rewrite rebuild_key_name, Hname. by apply IH.
Qed.

Lemma lookup_key_excluded E k nk m :
  [k; nk] ∈ E -> lookup_key nk (filter_nested_spec E k m) = None.
Proof.
  intros HE. apply lookup_key_None. unfold names.
  intros (n & Hin & Hname)%list_elem_of_omap.
  apply list_elem_of_filter in Hin as [Hkeep _].
  apply Hkeep. by apply (depth2_match_name E k n nk).
Qed.

Lemma lookup_key_nested_keys D k m :
  string_keyed D = true -> lookup_key k D = Some (VMapSlice m) ->
  string_keys m = true.
Proof.
  unfold string_keyed. intros [_ HD]%andb_prop.
  induction D as [|item D IH]; [done|]. simpl in *.
  apply andb_prop in HD as [Hn HD]. intros Hlook.
  destruct (key_name item) as [k'|]; [|by apply IH].
  destruct (String.eqb k' k); [|by apply IH].
  simplify_eq. unfold nested_string_keys in Hn. by rewrite Hlook in Hn.
Qed.

Lemma extracted_vars_mapping p E :
  unique_keys p = true -> GetPlaybookExclusions p = Ok E ->
  exists vars, lookup_key "vars" p = Some (VMapSlice vars).
Proof.
  intros Hp. unfold GetPlaybookExclusions.
  rewrite scan_playbook_lookup by done.
  destruct (lookup_key "vars" p) as [v|]; [|done].
  destruct v; try done. eauto.
Qed.

(** X13: [CleanPlaybook] cannot be applied to its own output when the
    document excludes its declaration, as the documents of the scheme do:
    the cleaned document no longer has the [insights_signature_exclude]
    entry, and cleaning it again fails with the error of a missing key. *)
Theorem cleaned_document_has_no_declaration p E :
  unique_keys p = true ->
  string_keyed p = true ->
  GetPlaybookExclusions p = Ok E ->
  ["vars"; exclude_key] ∈ E ->
  exists clean,
    CleanPlaybook p = Ok clean
    /\ CleanPlaybook clean = Err missing_exclusions.
Proof.
  intros Hu Hp HG HE. exists (filter_spec E p).
  split; [by apply CleanPlaybook_succeeds|].
  destruct (extracted_vars_mapping p E Hu HG) as [vars Hvars].
  unfold CleanPlaybook. rewrite undeclared_missing; [done| |].
  - unfold unique_keys in *. apply andb_prop in Hu as [_ Hdup].
    pose proof (filter_spec_string_keyed E p Hp) as Hk.
    unfold string_keyed in Hk. apply andb_prop in Hk as [-> _]. simpl.
    apply bool_decide_eq_true. apply bool_decide_eq_true in Hdup.
    eapply sublist_NoDup; [exact Hdup|apply names_filter_spec].
  - right. exists (filter_nested_spec E "vars" vars). split; [|split].
    + by apply lookup_key_filter_spec.
    + apply string_keys_filter. by apply (lookup_key_nested_keys p "vars").
    + by apply lookup_key_excluded.
Qed.

Lemma cleaned_document_has_no_declaration_witness :
  exists clean,
    CleanPlaybook demo = Ok clean
    /\ CleanPlaybook clean = Err missing_exclusions.
Proof.
  apply (cleaned_document_has_no_declaration demo demo_exclusions);
    try reflexivity.
  unfold demo_exclusions. apply elem_of_cons. right. apply elem_of_cons. by left.
Defined.

(** ** The format of the serializer *)

Lemma join_foldr sep s ss tail :
  join sep (s :: ss) +:+ tail
  = s +:+ foldr (fun s acc => sep +:+ s +:+ acc) tail ss.
Proof.
  revert s. induction ss as [|s' ss IH]; intros s; [done|].
  change (join sep (s :: s' :: ss)) with (s +:+ sep +:+ join sep (s' :: ss)).
  by rewrite !append_assoc, IH.
Qed.

Lemma list_loop_join f l ss :
  Forall2 (fun x s => f x = Ok s) l ss ->
  forall i r, (0 < i)%nat ->
    list_loop f l i r = Ok (r +:+ foldr (fun s acc => ", " +:+ s +:+ acc) "]" ss).
Proof.
  induction 1 as [|x s l ss Hx _ IH]; intros i r Hi; simpl; [done|].
  rewrite Hx. simpl. destruct (Nat.ltb_spec 0 i); [|lia].
  rewrite IH by lia. by rewrite !append_assoc.
Qed.

(** X14: a list whose elements are encoded as [ss] is encoded as the
    elements joined by a comma and a space between square brackets: no
    separator before the first element or after the last one. *)
Theorem marshallPlaybookList_format l ss :
  Forall2 (fun x s => marshallPlaybookItem x = Ok s) l ss ->
  marshallPlaybookList l = Ok ("[" +:+ join ", " ss +:+ "]")
  /\ marshallPlaybookItem (VSlice l) = Ok ("[" +:+ join ", " ss +:+ "]").
Proof.
  intros H. assert (marshallPlaybookList l = Ok ("[" +:+ join ", " ss +:+ "]")); [|done].
  unfold marshallPlaybookList. destruct H as [|x s l ss Hx H]; [done|].
  rewrite join_foldr. simpl. rewrite Hx. simpl.
  rewrite (list_loop_join _ l ss) by (done || lia). by rewrite !append_assoc.
Qed.

Lemma marshallPlaybookList_format_witness :
  marshallPlaybookList [VString "h1"; VBool false; VSlice []]
  = Ok ("[" +:+ join ", " ["'h1'"; "False"; "[]"] +:+ "]").
Proof.
  refine (proj1 (marshallPlaybookList_format
                   [VString "h1"; VBool false; VSlice []]
                   ["'h1'"; "False"; "[]"] _)).
  repeat constructor.
Defined.

Lemma map_loop_join f m ss :
  Forall2 (fun item s => exists k v, Key item = VString k
                                     /\ f (Value item) = Ok v
                                     /\ s = pair_text k v) m ss ->
  forall i r, (0 < i)%nat ->
    map_loop f m i r = Ok (r +:+ foldr (fun s acc => ", " +:+ s +:+ acc) "])" ss).
Proof.
  induction 1 as [|item s m ss (k & v & HK & Hv & ->) _ IH]; intros i r Hi;
    simpl; [done|].
  rewrite HK. simpl. rewrite Hv. simpl. destruct (Nat.ltb_spec 0 i); [|lia].
  rewrite IH by lia. unfold pair_text. by rewrite !append_assoc.
Qed.

(** X15: a mapping whose values are encoded is encoded as [ordereddict([]
    and [])] around its pairs [('key', value)], in the order of the
    mapping, joined by a comma and a space; the key is written between
    single quotes as it is. *)
Theorem marshallPlaybookMap_format m ss :
  Forall2 (fun item s => exists k v, Key item = VString k
                                     /\ marshallPlaybookItem (Value item) = Ok v
                                     /\ s = pair_text k v) m ss ->
  marshallPlaybookMap m = Ok ("ordereddict([" +:+ join ", " ss +:+ "])")
  /\ MarshallPlaybook m = marshallPlaybookMap m
  /\ marshallPlaybookItem (VMapSlice m) = marshallPlaybookMap m.
Proof.
  intros H. split; [|done].
  unfold marshallPlaybookMap.
  destruct H as [|item s m ss (k & v & HK & Hv & ->) H]; [done|].
  rewrite join_foldr. simpl. rewrite HK. simpl. rewrite Hv. simpl.
  rewrite (map_loop_join _ m ss) by (done || lia).
  unfold pair_text. by rewrite !append_assoc.
Qed.

Lemma marshallPlaybookMap_format_witness :
  marshallPlaybookMap [entry "name" (VString "Demo"); entry "tags" (VSlice [])]
  = Ok ("ordereddict([" +:+ join ", " ["('name', 'Demo')"; "('tags', [])"] +:+ "])").
Proof.
  refine (proj1 (marshallPlaybookMap_format
                   [entry "name" (VString "Demo"); entry "tags" (VSlice [])]
                   ["('name', 'Demo')"; "('tags', [])"] _)).
  repeat constructor.
  - exists "name", "'Demo'". repeat split.
  - exists "tags", "[]". repeat split.
Defined.

(** X16: the encoding is not injective, because a string is written
    between single quotes without escaping: a list with the one string
    [a', 'b] and the list of the two strings [a] and [b] have the same
    bytes, also inside a document. *)
Theorem quoted_strings_collide k a b :
  [VString (a +:+ "', '" +:+ b)] ≠ [VString a; VString b]
  /\ marshallPlaybookList [VString (a +:+ "', '" +:+ b)]
     = marshallPlaybookList [VString a; VString b]
  /\ MarshallPlaybook [entry k (VSlice [VString (a +:+ "', '" +:+ b)])]
     = MarshallPlaybook [entry k (VSlice [VString a; VString b])]
  /\ exists bytes,
       MarshallPlaybook [entry k (VSlice [VString a; VString b])] = Ok bytes.
Proof.
  split; [discriminate|].
  unfold MarshallPlaybook, marshallPlaybookMap, marshallPlaybookList. simpl.
  repeat split; try eexists; f_equal; rewrite !append_assoc; reflexivity.
Qed.

(** ** Filtering and serialization together *)

Lemma encodable_string_keyed p :
  encodable (VMapSlice p) = true -> string_keyed p = true.
Proof.
  unfold string_keyed, string_keys. simpl.
  induction p as [|item p IH]; [done|]. simpl.
  intros [[Hk Hv]%andb_prop Hp]%andb_prop.
  apply IH in Hp as [Hp1 Hp2]%andb_prop. rewrite Hk, Hp1, Hp2. simpl.
  rewrite andb_true_r. unfold nested_string_keys.
  destruct (Value item) as [| | | | | |m]; try done.
  simpl in Hv. unfold string_keys.
  clear -Hv. induction m as [|n m IH]; [done|]. simpl in *.
  apply andb_prop in Hv as [[-> _]%andb_prop Hm]. by apply IH.
Qed.

Lemma encodable_filter (P : MapItem -> Prop) `{forall x, Decision (P x)} m :
  encodable (VMapSlice m) = true -> encodable (VMapSlice (filter P m)) = true.
Proof.
  simpl. induction m as [|n m IH]; [done|]. simpl.
  intros [Hn Hm]%andb_prop. rewrite filter_cons.
  destruct (decide (P n)); simpl; [rewrite Hn|]; by apply IH.
Qed.

Lemma encodable_filter_spec E p :
  encodable (VMapSlice p) = true -> encodable (VMapSlice (filter_spec E p)) = true.
Proof.
  simpl. induction p as [|item p IH]; [done|]. simpl.
  intros [[Hk Hv]%andb_prop Hp]%andb_prop. rewrite filter_spec_cons.
  destruct (decide (dropped E item)); [by apply IH|]. simpl.
  rewrite rebuild_key_name, Hk, IH by done. simpl. rewrite andb_true_r.
  unfold rebuild. destruct (Value item) as [| | | | | |m] eqn:HV;
    try (by rewrite HV).
  destruct (key_name item); [|by rewrite HV].
  change (encodable (VMapSlice (filter_nested_spec E s m)) = true).
  by apply encodable_filter.
Qed.

(** X17: on a document made of mappings with string keys, lists, booleans
    and strings, the pipeline cannot fail after the extraction:
    [CleanPlaybook] succeeds and [MarshallPlaybook] encodes its result. *)
Theorem pipeline_succeeds_on_encodable p E :
  encodable (VMapSlice p) = true ->
  GetPlaybookExclusions p = Ok E ->
  exists clean bytes,
    CleanPlaybook p = Ok clean /\ MarshallPlaybook clean = Ok bytes.
Proof.
  intros Hp HG. exists (filter_spec E p).
  pose proof (marshall_outcome (VMapSlice (filter_spec E p))) as Hout.
  rewrite (encodable_filter_spec E p Hp) in Hout. destruct Hout as [bytes Hbytes].
  exists bytes. split; [|exact Hbytes].
  apply CleanPlaybook_succeeds; [done|]. by apply encodable_string_keyed.
Qed.

Lemma pipeline_succeeds_on_encodable_witness :
  exists clean bytes,
    CleanPlaybook excluding_vars = Ok clean /\ MarshallPlaybook clean = Ok bytes.
Proof.
  apply (pipeline_succeeds_on_encodable excluding_vars [["vars"]]); reflexivity.
Defined.

(** ** Error texts *)

(** X18: the text of an error tells the error: two errors with the same
    text are of the same kind and have the same message. *)
Theorem Error_injective e1 e2 : Error e1 = Error e2 -> e1 = e2.
Proof.
  destruct e1 as [m1|m1], e2 as [m2|m2]; intros H; cbv in H;
    try discriminate H; by simplify_eq.
Qed.

Lemma Error_injective_witness :
  PlaybookError "playbook contains no data" = PlaybookError "playbook contains no data".
Proof. apply (Error_injective _ _). reflexivity. Defined.

(** ** Decoding and [main] *)

(** X19: [UnmarshalPlaybook] returns a playbook exactly when the decoder
    returns a list with that one playbook; an empty list and a list of two
    or more playbooks are rejected with a [PlaybookError], and an error of
    the decoder is returned as it is. *)
Theorem UnmarshalPlaybook_single decoder playbook :
  (forall p, UnmarshalPlaybook decoder playbook = Success p
             <-> decoder playbook = Success [p])
  /\ (decoder playbook = Success [] ->
      UnmarshalPlaybook decoder playbook
      = Failure (Own (PlaybookError "playbook contains no data")))
  /\ (forall first second others,
        decoder playbook = Success (first :: second :: others) ->
        UnmarshalPlaybook decoder playbook
        = Failure (Own (PlaybookError "input cannot contain more than one playbook")))
  /\ (forall e, decoder playbook = Failure e ->
                UnmarshalPlaybook decoder playbook = Failure e).
Proof.
  unfold UnmarshalPlaybook. split; [|split; [|split]].
  - intros p.
    destruct (decoder playbook) as [[|first [|second others]]|]; simpl;
      split; intros H; by simplify_eq.
  - intros H. by rewrite H.
  - intros first second others H. by rewrite H.
  - intros e H. by rewrite H.
Qed.

Lemma Println_inj s s' : Println s = Println s' -> s = s'.
Proof.
  unfold Println. revert s'.
  induction s as [|c s IH]; intros [|c' s'] H; try done.
  - rewrite append_cons in H. injection H as _ H. by destruct s'.
  - rewrite append_cons in H. injection H as _ H. by destruct s.
  - rewrite !append_cons in H. injection H as -> H. f_equal. by apply IH.
Qed.

Lemma Println_not_empty s : Println s ≠ "".
Proof. by destruct s. Qed.

Ltac nothing_written :=
  let H := fresh in
  intros H;
  first [ by apply (f_equal ended) in H
        | apply (f_equal stdout) in H; symmetry in H;
          by apply Println_not_empty in H ].

(** X20: [main] writes to standard output the canonical bytes and a
    newline when reading, decoding, cleaning and serializing all succeed,
    and in no other case: whenever a stage fails or panics, nothing is
    written. *)
Theorem main_prints_canonical_bytes w :
  (forall bytes,
      main w = mkRun (Println bytes) Returned
      <-> exists rawPlaybook dirty clean,
            readPlaybook w (NewPlaybookSource w) = Success rawPlaybook
            /\ UnmarshalPlaybook (Unmarshal w) rawPlaybook = Success dirty
            /\ CleanPlaybook dirty = Ok clean
            /\ MarshallPlaybook clean = Ok bytes)
  /\ (stdout (main w) = ""
      \/ exists bytes, main w = mkRun (Println bytes) Returned).
Proof.
  unfold main. split.
  - intros bytes. split.
    + destruct (readPlaybook w (NewPlaybookSource w)) as [raw|] eqn:Hread;
        [|nothing_written].
      destruct (UnmarshalPlaybook (Unmarshal w) raw) as [dirty|] eqn:Hdecode;
        [|nothing_written].
      destruct (CleanPlaybook dirty) as [clean| |] eqn:Hclean;
        cbn [MarshallPlaybook_ptr]; try nothing_written.
      destruct (MarshallPlaybook clean) as [serialized|e|] eqn:HM;
        [| |nothing_written].
      * intros H. injection H as H. apply Println_inj in H. subst.
        by exists raw, dirty, clean.
      * by apply (marshall_no_error (VMapSlice clean)) in HM.
    + intros (raw & dirty & clean & -> & -> & -> & HM).
      cbn [MarshallPlaybook_ptr]. by rewrite HM.
  - destruct (readPlaybook w (NewPlaybookSource w)) as [raw|]; [|by left].
    destruct (UnmarshalPlaybook (Unmarshal w) raw) as [dirty|]; [|by left].
    destruct (CleanPlaybook dirty) as [clean| |]; cbn [MarshallPlaybook_ptr];
      [|by left|by left].
    destruct (MarshallPlaybook clean) as [serialized|e|] eqn:HM; [|by right; eexists|by left].
    right. by eexists.
Qed.

(** X21: when [CleanPlaybook] returns an error, which can only be the
    missing declaration, [main] does not stop: it calls [MarshallPlaybook]
    with the nil pointer and ends in a panic, having written nothing. *)
Theorem main_panics_after_failed_clean w rawPlaybook dirty e :
  readPlaybook w (NewPlaybookSource w) = Success rawPlaybook ->
  UnmarshalPlaybook (Unmarshal w) rawPlaybook = Success dirty ->
  CleanPlaybook dirty = Err e ->
  e = missing_exclusions /\ main w = mkRun "" Panicked.
Proof.
  intros Hread Hdecode Hclean. split; [by apply (CleanPlaybook_error dirty)|].
  unfold main. by rewrite Hread, Hdecode, Hclean.
Qed.

Lemma main_panics_after_failed_clean_witness :
  main (mkWorld None (Success "- name: Demo")
          (fun _ => Failure (Foreign "no such file"))
          (fun _ => Success [[entry "name" (VString "Demo")]]))
  = mkRun "" Panicked.
Proof.
  refine (proj2 (main_panics_after_failed_clean
                   (mkWorld None (Success "- name: Demo")
                      (fun _ => Failure (Foreign "no such file"))
                      (fun _ => Success [[entry "name" (VString "Demo")]]))
                   "- name: Demo" [entry "name" (VString "Demo")]
                   missing_exclusions _ _ _)); reflexivity.
Defined.

(** X22: [main] reads one source: the file named by [PLAYBOOK_SOURCE] when
    the variable is set to a non-empty value, and standard input when it
    is empty or not set; the other source has no influence on the run. *)
Theorem main_reads_one_source w w' :
  Getenv (PLAYBOOK_SOURCE w) = Getenv (PLAYBOOK_SOURCE w') ->
  Unmarshal w = Unmarshal w' ->
  (if String.eqb (Getenv (PLAYBOOK_SOURCE w)) ""
   then ReadAll_Stdin w = ReadAll_Stdin w'
   else ReadFile w (Getenv (PLAYBOOK_SOURCE w))
        = ReadFile w' (Getenv (PLAYBOOK_SOURCE w))) ->
  NewPlaybookSource w = NewPlaybookSource w' /\ main w = main w'.
Proof.
  intros Henv Hdecode Hsource.
  assert (Hnew : NewPlaybookSource w = NewPlaybookSource w')
    by (unfold NewPlaybookSource; by rewrite Henv).
  split; [done|]. unfold main. rewrite <- Hnew, <- Hdecode.
  assert (Hread : readPlaybook w (NewPlaybookSource w)
                  = readPlaybook w' (NewPlaybookSource w)).
  { unfold readPlaybook, NewPlaybookSource. simpl.
    by destruct (String.eqb (Getenv (PLAYBOOK_SOURCE w)) ""). }
  by rewrite Hread.
Qed.

Lemma main_reads_one_source_witness :
  main (mkWorld None (Success "- name: Demo")
          (fun _ => Failure (Foreign "no such file"))
          (fun _ => Success [[entry "name" (VString "Demo")]]))
  = main (mkWorld (Some "") (Success "- name: Demo")
            (fun _ => Success "- name: Other")
            (fun _ => Success [[entry "name" (VString "Demo")]])).
Proof.
  refine (proj2 (main_reads_one_source
                   (mkWorld None (Success "- name: Demo")
                      (fun _ => Failure (Foreign "no such file"))
                      (fun _ => Success [[entry "name" (VString "Demo")]]))
                   (mkWorld (Some "") (Success "- name: Demo")
                      (fun _ => Success "- name: Other")
                      (fun _ => Success [[entry "name" (VString "Demo")]]))
                   _ _ _)); reflexivity.
Defined.

(** ** The entries of [vars] after the declaration *)

Lemma scan_vars_first before raw rest r :
  string_keys before = true ->
  exclude_key ∉ names before ->
  scan_vars (before ++ entry exclude_key (VString raw) :: rest) r = Ok raw.
Proof.
  induction before as [|item before IH]; simpl; [done|].
  intros [Hk Hb]%andb_prop Hnot.
  destruct (assert_string_key item Hk) as (k & _ & Hname & ->). simpl.
  unfold names in Hnot. simpl in Hnot. rewrite Hname in Hnot.
  apply not_elem_of_cons in Hnot as [Hne Hnot].
  destruct (String.eqb_spec k "insights_signature_exclude"); [done|].
  simpl. by apply IH.
Qed.

(** X23: inside [vars] the first [insights_signature_exclude] entry is the
    declaration, and the inner loop stops there: the entries that follow,
    be they other declarations, entries with keys that are not strings or
    values of any type, are not looked at by the extraction. *)
Theorem entries_after_declaration_ignored before raw rest :
  string_keys before = true ->
  exclude_key ∉ names before ->
  GetPlaybookExclusions
    [entry "vars" (VMapSlice (before ++ entry exclude_key (VString raw) :: rest))]
  = GetPlaybookExclusions (declaring (VString raw)).
Proof.
  intros Hb Hnot. unfold GetPlaybookExclusions. simpl.
  rewrite (scan_vars_first before raw rest "") by done. done.
Qed.

Lemma entries_after_declaration_ignored_witness :
  GetPlaybookExclusions
    [entry "vars" (VMapSlice
       ([entry "other" (VInt 1)]
        ++ entry exclude_key (VString "/hosts")
        :: [mkMapItem (VInt 2) VNil; entry exclude_key (VBool true)]))]
  = GetPlaybookExclusions (declaring (VString "/hosts")).
Proof.
  apply (entries_after_declaration_ignored [entry "other" (VInt 1)] "/hosts").
  - reflexivity.
  - change (names [entry "other" (VInt 1)]) with ["other"].
    rewrite not_elem_of_cons. split; [discriminate|apply not_elem_of_nil].
Defined.
